(** * Python typings and Beam portable schemas

    A shallow embedding of [apache_beam/typehints/schemas.py]: the registry of
    schemas by id, the translation of Python typings to [FieldType] protos and
    back, the registry of logical types and the [MicrosInstant] logical type.

    Python objects that are shared and mutated (the schema registries, the
    NamedTuple classes, the RowTypeConstraint objects, the source of uuids)
    live in an explicit [world]; every function of the module is a
    computation over that world which returns a value or raises. *)

From Stdlib Require Import ZArith Lia Ascii.
From stdpp Require Import base option list strings gmap pretty.

Open Scope string_scope.
Set Warnings "-register-all".

(** ** The protos of [schema_pb2] *)

Inductive AtomicType :=
  | UNSPECIFIED | BYTE | INT16 | INT32 | INT64
  | FLOAT | DOUBLE | STRING | BOOLEAN | BYTES.

(** A [FieldType] message: the [nullable] flag and the [type_info] oneof.
    [no_type_info] is the oneof left unset ([WhichOneof] answers [None]).
    The [representation] of a logical type is a message field, hence
    optional. *)
Inductive FieldType :=
  | mkFieldType (nullable : bool) (type_info : TypeInfo)
with TypeInfo :=
  | no_type_info
  | atomic_type (a : AtomicType)
  | array_type (element_type : FieldType)
  | map_type (key_type value_type : FieldType)
  | row_type (schema : Schema)
  | logical_type (urn : string) (representation : option FieldType)
with Schema :=
  | mkSchema (fields : list Field) (id : string)
with Field :=
  | mkField (name : string) (type : FieldType).

Definition nullable (ft : FieldType) : bool :=
  match ft with mkFieldType n _ => n end.
Definition type_info (ft : FieldType) : TypeInfo :=
  match ft with mkFieldType _ ti => ti end.
Definition schema_fields (s : Schema) : list Field :=
  match s with mkSchema fs _ => fs end.
Definition schema_id (s : Schema) : string :=
  match s with mkSchema _ i => i end.
Definition field_name (f : Field) : string :=
  match f with mkField n _ => n end.
Definition field_type (f : Field) : FieldType :=
  match f with mkField _ t => t end.

(** [result.nullable = value] *)
Definition set_nullable (value : bool) (ft : FieldType) : FieldType :=
  mkFieldType value (type_info ft).

(** [schema_pb2.FieldType(row_type=schema_pb2.RowType(schema=schema))] *)
Definition RowFieldType (schema : Schema) : FieldType :=
  mkFieldType false (row_type schema).

Definition PYTHON_ANY_URN : string := "beam:logical:pythonsdk_any:v1".

(** ** Python typings *)

(** Plain classes, told apart by identity.  The first twelve are the keys of
    [PRIMITIVE_TO_ATOMIC_TYPE]; [Timestamp] and [PythonCallableWithSource] are
    the language types of the two logical types of the module; [OtherClass]
    is any other class that is neither a NamedTuple class nor a subclass of
    Sequence or of Mapping (those are typings of their own below). *)
Inductive pyclass :=
  | np_int8 | np_int16 | np_int32 | np_int64 | np_float32 | np_float64
  | py_str | py_bool | py_bytes | ByteString | py_int | py_float
  | Timestamp | PythonCallableWithSource
  | OtherClass (qualname : string).

#[global] Instance pyclass_eq_dec : EqDecision pyclass.
Proof. solve_decision. Defined.

(** The typings the translation tells apart.  NamedTuple classes and
    RowTypeConstraint objects are references into the [world], as in Python:
    a class may then mention itself among the types of its fields. *)
Inductive py_type :=
  | TClass (c : pyclass)
  | TAny                                  (* typing.Any *)
  | TNone                                 (* type(None) *)
  | TSchemaProto (s : Schema)             (* a schema_pb2.Schema given as a typing *)
  | TNamedTuple (cls : nat)               (* a NamedTuple class *)
  | TRowConstraint (obj : nat)            (* a row_type.RowTypeConstraint object *)
  | TMapping (args : list py_type)        (* typing.Mapping, bare or subscripted *)
  | TOptional (t : py_type)               (* Union[t, None] *)
  | TSequence (args : list py_type)       (* a subclass of Sequence: list, List[t], Sequence[t], ... *)
  | TMappingLike (args : list py_type).   (* any other subclass of Mapping: dict, Dict[k, v], ... *)

(** [typing.Optional[t]] is [Union[t, None]]: unions are flattened and
    [None] is kept once, so [Optional] of an optional typing is that typing,
    and [Optional[None]] is [type(None)]. *)
Definition Optional (t : py_type) : py_type :=
  match t with
  | TOptional _ => t
  | TNone => TNone
  | _ => TOptional t
  end.

(** Modelled from the spec: the helpers of [native_type_compatibility].
    [_get_args] gives the type parameters of a typing (none for a bare
    class); an "exact generic mapping" is [typing.Mapping]; an "optional" is
    the union of one type and the absent-value marker. *)
Definition _get_args (typ : py_type) : list py_type :=
  match typ with
  | TMapping args | TSequence args | TMappingLike args => args
  | TOptional t => [t; TNone]
  | _ => []
  end.

Definition _match_is_exactly_mapping (user_type : py_type) : bool :=
  match user_type with TMapping _ => true | _ => false end.

Definition _match_is_optional (user_type : py_type) : bool :=
  match user_type with TOptional _ => true | _ => false end.

Definition extract_optional_type (user_type : py_type) : py_type :=
  match user_type with TOptional t => t | _ => TNone end.

Inductive abstract_base := Sequence | Mapping.

Definition _safe_issubclass (derived : py_type) (parent : abstract_base) : bool :=
  match derived, parent with
  | TSequence _, Sequence => true
  | TClass py_str, Sequence | TClass py_bytes, Sequence
  | TClass ByteString, Sequence => true
  | TMapping _, Mapping | TMappingLike _, Mapping => true
  | _, _ => false
  end.

(** ** Exceptions *)

Inductive value_error :=
  | UnsupportedAtomicType (a : AtomicType)
      (* "Unsupported atomic type: {0}" *)
  | UnrecognizedTypeInfo
      (* "Unrecognized type_info: {type_info!r}" *)
  | NoLogicalTypeForTyping (typ : py_type)
      (* "No logical type registered for typing '%s'" *)
  | NoLogicalTypeForURN (urn : string)
      (* "No logical type registered for URN '%s'" *)
  | FailedToDecodeField (field : Field) (cause : value_error)
      (* "Failed to decode schema due to an issue with Field proto: ..." from e *)
  | NotEnoughValuesToUnpack (expected got : nat)
  | TooManyValuesToUnpack (expected : nat)
  | NotAnIdentifier (name : string)
      (* "Type names and field names must be valid identifiers: {name!r}" *)
  | IsAKeyword (name : string)
      (* "Type names and field names cannot be a keyword: {name!r}" *)
  | StartsWithUnderscore (name : string)
      (* "Field names cannot start with an underscore: {name!r}" *)
  | DuplicateFieldName (name : string).
      (* "Encountered duplicate field name: {name!r}" *)

Inductive exn :=
  | ValueError (e : value_error)
  | AssertionError (registry_size : nat)
      (* "Failed to generate a unique UUID for schema after 100 tries! ..." *)
  | IndexError
      (* tuple index out of range *)
  | AttributeError
      (* 'NoneType' object has no attribute ... *)
  | RecursionError.
      (* maximum recursion depth exceeded *)

(** ** The world *)

(** Modelled from the spec: the native composite types.  A NamedTuple class
    has a name and ordered, annotated fields, and carries the schema id it has
    been assigned, if any ("native types carry their assigned id"). *)
Record NamedTupleClass := mkNamedTupleClass {
  cls_name : string;
  cls_fields : list (string * py_type);
  cls_schema_id : option string;
}.

(** Modelled from the spec: [row_type.RowTypeConstraint], "an ad hoc record
    shape (ordered name/type field list, optionally a previously assigned
    schema id)" that the translation accepts like a nominal composite type and
    that "differs from a fully named composite type only in how its identity
    is resolved": a constraint made from a user type has the id that the user
    type carries, an ad hoc one holds its own. *)
Inductive row_identity :=
  | OfUserType (cls : nat)
  | AdHoc (own_schema_id : option string).

Record RowTypeConstraint := mkRowTypeConstraint {
  _fields : list (string * py_type);
  _identity : row_identity;
}.

(** A class implementing [LogicalType] (only the no-argument case is
    supported by the module). *)
Record LogicalTypeClass := mkLogicalTypeClass {
  urn : string;
  language_type : pyclass;
  representation_type : py_type;
}.

(** [by_logical_type] is written by [add] and read by nothing in the
    translation. *)
Record LogicalTypeRegistry := mkLogicalTypeRegistry {
  by_urn : gmap string LogicalTypeClass;
  by_language_type : list (pyclass * LogicalTypeClass);
}.

(** [by_id] of a [SchemaTypeRegistry]: id -> (typing, schema).  The typing is
    a NamedTuple class or [None].  ([by_typing] is never read nor written.) *)
Abbreviation by_id_map := (gmap string (option nat * Schema)).

Record world := mkWorld {
  SCHEMA_REGISTRY : by_id_map;          (* the module-level registry *)
  private_registry : by_id_map;         (* a registry a caller passes instead *)
  classes : list NamedTupleClass;       (* NamedTuple classes, by address *)
  constraints : list RowTypeConstraint; (* RowTypeConstraint objects, by address *)
  _known_logical_types : LogicalTypeRegistry;
  coders_registry : list nat;           (* classes registered with RowCoder *)
  uuid4 : nat -> string;                (* what the n-th call of str(uuid4()) gives *)
  uuid4_calls : nat;                    (* the calls made so far *)
  unicode_identifier : string -> bool;  (* [isidentifier()] of a name that is not all ASCII *)
}.

(** The [schema_registry] argument: the default or the caller's own. *)
Inductive registry_ref := DefaultRegistry | PrivateRegistry.

Definition registry_of (r : registry_ref) (w : world) : by_id_map :=
  match r with
  | DefaultRegistry => SCHEMA_REGISTRY w
  | PrivateRegistry => private_registry w
  end.

Definition with_registry (r : registry_ref) (m : by_id_map) (w : world) : world :=
  match r with
  | DefaultRegistry =>
      mkWorld m (private_registry w) (classes w) (constraints w)
        (_known_logical_types w) (coders_registry w) (uuid4 w) (uuid4_calls w)
        (unicode_identifier w)
  | PrivateRegistry =>
      mkWorld (SCHEMA_REGISTRY w) m (classes w) (constraints w)
        (_known_logical_types w) (coders_registry w) (uuid4 w) (uuid4_calls w)
        (unicode_identifier w)
  end.

Definition with_classes (cs : list NamedTupleClass) (w : world) : world :=
  mkWorld (SCHEMA_REGISTRY w) (private_registry w) cs (constraints w)
    (_known_logical_types w) (coders_registry w) (uuid4 w) (uuid4_calls w)
    (unicode_identifier w).

Definition with_constraints (os : list RowTypeConstraint) (w : world) : world :=
  mkWorld (SCHEMA_REGISTRY w) (private_registry w) (classes w) os
    (_known_logical_types w) (coders_registry w) (uuid4 w) (uuid4_calls w)
    (unicode_identifier w).

Definition with_coders (cs : list nat) (w : world) : world :=
  mkWorld (SCHEMA_REGISTRY w) (private_registry w) (classes w) (constraints w)
    (_known_logical_types w) cs (uuid4 w) (uuid4_calls w)
    (unicode_identifier w).

Definition with_uuid4_calls (n : nat) (w : world) : world :=
  mkWorld (SCHEMA_REGISTRY w) (private_registry w) (classes w) (constraints w)
    (_known_logical_types w) (coders_registry w) (uuid4 w) n
    (unicode_identifier w).

(** ** Computations: a value and the new world, or an exception *)

Inductive outcome (A : Type) :=
  | Return (a : A) (w : world)
  | Raise (e : exn).
Arguments Return {A} a w.
Arguments Raise {A} e.

Definition M (A : Type) : Type := world -> outcome A.

Definition ret {A} (a : A) : M A := fun w => Return a w.
Definition raise {A} (e : exn) : M A := fun _ => Raise e.
Definition bind {A B} (m : M A) (f : A -> M B) : M B :=
  fun w => match m w with
           | Return a w' => f a w'
           | Raise e => Raise e
           end.
Definition get_world : M world := fun w => Return w w.
Definition modify (f : world -> world) : M unit := fun w => Return tt (f w).

Notation "'let*' x ':=' m 'in' k" := (bind m (fun x => k))
  (at level 10, x pattern, m at level 100, k at level 200,
   format "'[v' 'let*'  x  ':='  m  'in' '/' k ']'").
Notation "m ';;;' k" := (bind m (fun _ => k))
  (at level 100, k at level 200, right associativity).

(** A list comprehension or a [map] whose body has effects: left to right. *)
Fixpoint for_each {A B} (f : A -> M B) (l : list A) : M (list B) :=
  match l with
  | [] => ret []
  | x :: l' =>
      let* y := f x in
      let* ys := for_each f l' in
      ret (y :: ys)
  end.

(** [try: body  except ValueError as e: except_ e  else: else_ result];
    any other exception goes through. *)
Definition try_except_ValueError {A B} (body : M A)
    (except_ : value_error -> M B) (else_ : A -> M B) : M B :=
  fun w => match body w with
           | Return a w' => else_ a w'
           | Raise (ValueError e) => except_ e w
           | Raise e => Raise e
           end.

(** ** SchemaTypeRegistry *)

(** The loop of [generate_new_id], with the tries that are left. *)
Fixpoint generate_new_id_tries (self : registry_ref) (tries : nat) : M string :=
  match tries with
  | 0 =>
      let* w := get_world in
      raise (AssertionError (size (registry_of self w)))
  | S tries' =>
      let* w := get_world in
      let schema_id := uuid4 w (uuid4_calls w) in
      modify (with_uuid4_calls (S (uuid4_calls w))) ;;;
      match registry_of self w !! schema_id with
      | None => ret schema_id
      | Some _ => generate_new_id_tries self tries'
      end
  end.

Definition generate_new_id (self : registry_ref) : M string :=
  generate_new_id_tries self 100.

Definition add (self : registry_ref) (typing : option nat) (schema : Schema) : M unit :=
  let* w := get_world in
  modify (with_registry self (<[schema_id schema := (typing, schema)]> (registry_of self w))).

Definition get_typing_by_id (self : registry_ref) (unique_id : string) : M (option nat) :=
  let* w := get_world in
  match registry_of self w !! unique_id with
  | Some result => ret (fst result)
  | None => ret None
  end.

Definition get_schema_by_id (self : registry_ref) (unique_id : string) : M (option Schema) :=
  let* w := get_world in
  match registry_of self w !! unique_id with
  | Some result => ret (Some (snd result))
  | None => ret None
  end.

(** ** RowTypeConstraint *)

(** Modelled from the spec: the operations of [RowTypeConstraint] that the
    translation uses.  [from_user_type] coerces a NamedTuple class and answers
    [None] for anything else. *)
Definition from_user_type (user_type : py_type) (w : world) : option RowTypeConstraint :=
  match user_type with
  | TNamedTuple c =>
      match classes w !! c with
      | Some cls => Some (mkRowTypeConstraint (cls_fields cls) (OfUserType c))
      | None => None
      end
  | _ => None
  end.

Definition user_type_of (rtc : RowTypeConstraint) : option nat :=
  match _identity rtc with
  | OfUserType c => Some c
  | AdHoc _ => None
  end.

Definition schema_id_of (rtc : RowTypeConstraint) (w : world) : option string :=
  match _identity rtc with
  | OfUserType c => cls ← classes w !! c; cls_schema_id cls
  | AdHoc own => own
  end.

Definition carry_schema_id (schema_id : string) (cls : NamedTupleClass) : NamedTupleClass :=
  mkNamedTupleClass (cls_name cls) (cls_fields cls) (Some schema_id).

(** [self.set_schema_id(schema_id)]; [at_] is the address of [self] when the
    object is one of the world (a constraint that the translation makes for
    its own use and drops is not). *)
Definition set_schema_id (self : RowTypeConstraint) (at_ : option nat)
    (schema_id : string) : M unit :=
  match _identity self with
  | OfUserType c =>
      modify (fun w => with_classes (alter (carry_schema_id schema_id) c (classes w)) w)
  | AdHoc _ =>
      match at_ with
      | Some r =>
          modify (fun w =>
            with_constraints
              (<[r := mkRowTypeConstraint (_fields self) (AdHoc (Some schema_id))]>
                 (constraints w)) w)
      | None => ret tt
      end
  end.

(** [isinstance(type_, row_type.RowTypeConstraint)]: the object and its
    address. *)
Definition as_row_constraint (type_ : py_type) (w : world)
    : option (RowTypeConstraint * nat) :=
  match type_ with
  | TRowConstraint r => rtc ← constraints w !! r; Some (rtc, r)
  | _ => None
  end.

(** ** The atomic mapping tables *)

#[global] Instance AtomicType_eq_dec : EqDecision AtomicType.
Proof. solve_decision. Defined.

(** Python dicts with few keys, in insertion order. *)
Fixpoint dict_set {K V} `{EqDecision K} (k : K) (v : V) (d : list (K * V)) : list (K * V) :=
  match d with
  | [] => [(k, v)]
  | (k', v') :: d' =>
      if decide (k = k') then (k, v) :: d' else (k', v') :: dict_set k v d'
  end.

Fixpoint dict_get {K V} `{EqDecision K} (k : K) (d : list (K * V)) : option V :=
  match d with
  | [] => None
  | (k', v') :: d' => if decide (k = k') then Some v' else dict_get k d'
  end.

Definition dict_update {K V} `{EqDecision K} (d : list (K * V)) (items : list (K * V))
    : list (K * V) :=
  foldl (fun d kv => dict_set kv.1 kv.2 d) d items.

Definition _PRIMITIVES : list (pyclass * AtomicType) :=
  [ (np_int8, BYTE);
    (np_int16, INT16);
    (np_int32, INT32);
    (np_int64, INT64);
    (np_float32, FLOAT);
    (np_float64, DOUBLE);
    (py_str, STRING);
    (py_bool, BOOLEAN);
    (py_bytes, BYTES) ].

Definition PRIMITIVE_TO_ATOMIC_TYPE : list (pyclass * AtomicType) :=
  dict_update
    (dict_update [] _PRIMITIVES)
    [ (ByteString, BYTES); (py_int, INT64); (py_float, DOUBLE) ].

Definition ATOMIC_TYPE_TO_PRIMITIVE : list (AtomicType * pyclass) :=
  dict_update [] (map (fun '(typ, atomic) => (atomic, typ)) _PRIMITIVES).

(** [PRIMITIVE_TO_ATOMIC_TYPE.get(type_)]: the keys are classes. *)
Definition primitive_to_atomic (type_ : py_type) : option AtomicType :=
  match type_ with
  | TClass c => dict_get c PRIMITIVE_TO_ATOMIC_TYPE
  | _ => None
  end.

(** ** LogicalTypeRegistry and LogicalType *)

Definition LogicalTypeRegistry_add (urn_ : string) (logical_type_ : LogicalTypeClass)
    (self : LogicalTypeRegistry) : LogicalTypeRegistry :=
  mkLogicalTypeRegistry
    (<[urn_ := logical_type_]> (by_urn self))
    (dict_set (language_type logical_type_) logical_type_ (by_language_type self)).

Definition get_logical_type_by_urn (self : LogicalTypeRegistry) (urn_ : string)
    : option LogicalTypeClass :=
  by_urn self !! urn_.

(** The language types are classes: no other typing is a key. *)
Definition get_logical_type_by_language_type (self : LogicalTypeRegistry)
    (typ : py_type) : option LogicalTypeClass :=
  match typ with
  | TClass c => dict_get c (by_language_type self)
  | _ => None
  end.

Definition register_logical_type (logical_type_cls : LogicalTypeClass)
    (known : LogicalTypeRegistry) : LogicalTypeRegistry :=
  LogicalTypeRegistry_add (urn logical_type_cls) logical_type_cls known.

(** [LogicalType.from_typing]; [_from_typing] of a no-argument logical type
    only makes the instance. *)
Definition from_typing (typ : py_type) : M LogicalTypeClass :=
  let* w := get_world in
  match get_logical_type_by_language_type (_known_logical_types w) typ with
  | None => raise (ValueError (NoLogicalTypeForTyping typ))
  | Some logical_type_ => ret logical_type_
  end.

(** [LogicalType.from_runner_api], given the urn of the proto. *)
Definition from_runner_api (urn_ : string) : M LogicalTypeClass :=
  let* w := get_world in
  match get_logical_type_by_urn (_known_logical_types w) urn_ with
  | None => raise (ValueError (NoLogicalTypeForURN urn_))
  | Some logical_type_ => ret logical_type_
  end.

(** ** SchemaTranslation: from typings to protos *)

(** [key_type, value_type = map(rec, args)]: [map] is lazy and the
    unpacking asks for one element more than it binds. *)
Definition unpack_two (rec : py_type -> M FieldType) (args : list py_type)
    : M (FieldType * FieldType) :=
  match args with
  | [] => raise (ValueError (NotEnoughValuesToUnpack 2 0))
  | [k] => rec k ;;; raise (ValueError (NotEnoughValuesToUnpack 2 1))
  | [k; v] =>
      let* key_type := rec k in
      let* value_type := rec v in
      ret (key_type, value_type)
  | k :: v :: x :: _ =>
      rec k ;;; rec v ;;; rec x ;;; raise (ValueError (TooManyValuesToUnpack 2))
  end.

(** [schema_pb2.FieldType(logical_type=schema_pb2.LogicalType(urn=PYTHON_ANY_URN),
    nullable=True)] *)
Definition any_placeholder : FieldType :=
  mkFieldType true (logical_type PYTHON_ANY_URN None).

(** The translation of the fields of a constraint: the list comprehension
    of the RowTypeConstraint branch and of [named_fields_to_schema]; [rec]
    translates one typing. *)
Definition fields_to_runner_api (rec : py_type -> M FieldType)
    (fields : list (string * py_type)) : M (list Field) :=
  for_each
    (fun '(name, field_type) => let* t := rec field_type in ret (mkField name t))
    fields.

(** The branch of [typing_to_runner_api] for a RowTypeConstraint [type_];
    [rec] is the method itself, for the nested calls. *)
Definition row_constraint_to_runner_api (rec : py_type -> M FieldType)
    (self : registry_ref) (type_ : RowTypeConstraint) (at_ : option nat)
    : M FieldType :=
  let* w := get_world in
  let* (schema_id_, schema) :=
    match schema_id_of type_ w with
    | None =>
        let* schema_id_ := generate_new_id DefaultRegistry in
        set_schema_id type_ at_ schema_id_ ;;;
        ret (schema_id_, None)
    | Some schema_id_ =>
        let* schema := get_schema_by_id self schema_id_ in
        ret (schema_id_, schema)
    end in
  match schema with
  | None =>
      let* fields := fields_to_runner_api rec (_fields type_) in
      let schema := mkSchema fields schema_id_ in
      add self (user_type_of type_) schema ;;;
      ret (RowFieldType schema)
  | Some schema => ret (RowFieldType schema)
  end.

(** The body of the method [SchemaTranslation.typing_to_runner_api].  The
    call on the constraint that [from_user_type] has just made runs the
    RowTypeConstraint branch on it. *)
Definition typing_to_runner_api_body (rec : py_type -> M FieldType)
    (self : registry_ref) (type_ : py_type) : M FieldType :=
  let* w := get_world in
  match type_ with
  | TSchemaProto s => ret (RowFieldType s)
  | _ =>
  match as_row_constraint type_ w with
  | Some (rtc, r) => row_constraint_to_runner_api rec self rtc (Some r)
  | None =>
  match from_user_type type_ w with
  | Some row_type_constraint =>
      row_constraint_to_runner_api rec self row_type_constraint None
  | None =>
  match primitive_to_atomic type_ with
  | Some atomic => ret (mkFieldType false (atomic_type atomic))
  | None =>
  if _match_is_exactly_mapping type_ then
    let* (key_type, value_type) := unpack_two rec (_get_args type_) in
    ret (mkFieldType false (map_type key_type value_type))
  else if _match_is_optional type_ then
    let* result := rec (extract_optional_type type_) in
    ret (set_nullable true result)
  else if _safe_issubclass type_ Sequence then
    match _get_args type_ with
    | [] => raise IndexError
    | arg :: _ =>
        let* element_type := rec arg in
        ret (mkFieldType false (array_type element_type))
    end
  else if _safe_issubclass type_ Mapping then
    let* (key_type, value_type) := unpack_two rec (_get_args type_) in
    ret (mkFieldType false (map_type key_type value_type))
  else
    try_except_ValueError (from_typing type_)
      (fun _ => ret any_placeholder)
      (fun logical_type_ =>
         let* representation := rec (representation_type logical_type_) in
         ret (mkFieldType false
                (logical_type (urn logical_type_) (Some representation))))
  end end end end.

(** [fuel] bounds the depth of the nested calls, as the recursion limit of
    the interpreter does; running out of it is a [RecursionError]. *)
Fixpoint typing_to_runner_api (fuel : nat) (self : registry_ref) (type_ : py_type)
    : M FieldType :=
  match fuel with
  | 0 => raise RecursionError
  | S fuel' =>
      typing_to_runner_api_body (typing_to_runner_api fuel' self) self type_
  end.

(** [named_fields_to_schema], on a sequence of pairs (the items of a dict).
    The fields are translated before the id is generated. *)
Definition named_fields_to_schema (fuel : nat)
    (names_and_types : list (string * py_type)) : M Schema :=
  let* fields :=
    fields_to_runner_api (typing_to_runner_api fuel DefaultRegistry)
      names_and_types in
  let* id := generate_new_id DefaultRegistry in
  ret (mkSchema fields id).

(** ** SchemaTranslation: from protos to typings *)

(** [s.replace(old, new)] for single characters. *)
Fixpoint replace (old new : Ascii.ascii) (s : string) : string :=
  match s with
  | EmptyString => EmptyString
  | String c s' =>
      String (if decide (c = old) then new else c) (replace old new s')
  end.

(** *** Names that [NamedTuple] accepts

    [typing.NamedTuple(typename, fields)] makes the class with
    [collections.namedtuple], which validates the type name and the field
    names and raises a ValueError for the first one that it refuses.  A string
    is the UTF-8 encoding of the Python [str]. *)

Fixpoint all_chars (p : Ascii.ascii -> bool) (s : string) : bool :=
  match s with
  | EmptyString => true
  | String c s' => p c && all_chars p s'
  end.

Definition is_ascii (c : Ascii.ascii) : bool :=
  Nat.ltb (Ascii.nat_of_ascii c) 128.

Definition is_letter (c : Ascii.ascii) : bool :=
  let n := Ascii.nat_of_ascii c in
  (Nat.leb 65 n && Nat.leb n 90) || (Nat.leb 97 n && Nat.leb n 122).

Definition is_digit (c : Ascii.ascii) : bool :=
  let n := Ascii.nat_of_ascii c in
  Nat.leb 48 n && Nat.leb n 57.

Definition identifier_start (c : Ascii.ascii) : bool :=
  is_letter c || bool_decide (c = "_"%char).

Definition identifier_continue (c : Ascii.ascii) : bool :=
  identifier_start c || is_digit c.

(** [name.isidentifier()].  On an ASCII name: a letter or an underscore, then
    letters, digits and underscores.  On any other name the answer comes from
    the Unicode tables of the interpreter ([XID_Start], [XID_Continue]),
    which the world holds as [unicode_identifier]. *)
Definition isidentifier (unicode : string -> bool) (name : string) : bool :=
  if all_chars is_ascii name then
    match name with
    | EmptyString => false
    | String c rest => identifier_start c && all_chars identifier_continue rest
    end
  else unicode name.

(** [keyword.kwlist], as it is since Python 3.7. *)
Definition kwlist : list string :=
  [ "False"; "None"; "True"; "and"; "as"; "assert"; "async"; "await";
    "break"; "class"; "continue"; "def"; "del"; "elif"; "else"; "except";
    "finally"; "for"; "from"; "global"; "if"; "import"; "in"; "is";
    "lambda"; "nonlocal"; "not"; "or"; "pass"; "raise"; "return"; "try";
    "while"; "with"; "yield" ].

Definition iskeyword (name : string) : bool := bool_decide (name ∈ kwlist).

(** [name.startswith('_')] *)
Definition startswith_underscore (name : string) : bool :=
  match name with
  | String c _ => bool_decide (c = "_"%char)
  | EmptyString => false
  end.

(** The first loop of [namedtuple], over [[typename] + field_names]: every
    name is an identifier and no keyword. *)
Fixpoint refused_name (unicode : string -> bool) (names : list string)
    : option value_error :=
  match names with
  | [] => None
  | name :: names' =>
      if negb (isidentifier unicode name) then Some (NotAnIdentifier name)
      else if iskeyword name then Some (IsAKeyword name)
      else refused_name unicode names'
  end.

(** The second loop, over [field_names]: no name starts with an underscore
    and none is in [seen]. *)
Fixpoint refused_field_name (seen : list string) (field_names : list string)
    : option value_error :=
  match field_names with
  | [] => None
  | name :: field_names' =>
      if startswith_underscore name then Some (StartsWithUnderscore name)
      else if bool_decide (name ∈ seen) then Some (DuplicateFieldName name)
      else refused_field_name (name :: seen) field_names'
  end.

(** The ValueError of [namedtuple(typename, field_names)], if it raises one. *)
Definition namedtuple_error (unicode : string -> bool) (typename : string)
    (field_names : list string) : option value_error :=
  match refused_name unicode (typename :: field_names) with
  | Some e => Some e
  | None => refused_field_name [] field_names
  end.

(** [NamedTuple(typename, fields)]: the names are validated, then the class
    is made; it carries no schema id yet.  The annotations are typings, which
    the type check of [typing] lets through.  ([__reduce__], set on the class
    for pickling, does not take part in the translation.) *)
Definition NamedTuple (typename : string) (fields : list (string * py_type)) : M nat :=
  let* w := get_world in
  match namedtuple_error (unicode_identifier w) typename (map fst fields) with
  | Some e => raise (ValueError e)
  | None =>
      modify (with_classes (classes w ++ [mkNamedTupleClass typename fields None])) ;;;
      ret (length (classes w))
  end.

(** A RowTypeConstraint object that is handed to the caller. *)
Definition new_row_constraint (rtc : RowTypeConstraint) : M nat :=
  let* w := get_world in
  modify (with_constraints (constraints w ++ [rtc])) ;;;
  ret (length (constraints w)).

(** [coders.registry.register_coder(user_type, coders.RowCoder)] *)
Definition register_coder (user_type : nat) : M unit :=
  modify (fun w => with_coders (user_type :: coders_registry w) w).

(** [field_py_type.user_type] when [field_py_type] is a RowTypeConstraint. *)
Definition unwrap_row_constraint (field_py_type : py_type) : M py_type :=
  let* w := get_world in
  match as_row_constraint field_py_type w with
  | Some (rtc, _) =>
      match user_type_of rtc with
      | Some c => ret (TNamedTuple c)
      | None => ret TNone
      end
  | None => ret field_py_type
  end.

(** The decoding of the fields of a schema: the loop of the row branch of
    [typing_from_runner_api]; [rec] decodes one descriptor. *)
Definition fields_from_runner_api (rec : FieldType -> M py_type)
    (fields : list Field) : M (list (string * py_type)) :=
  for_each
    (fun field =>
       let* field_py_type :=
         try_except_ValueError
           (let* t := rec (field_type field) in unwrap_row_constraint t)
           (fun e => raise (ValueError (FailedToDecodeField field e)))
           ret in
       ret (field_name field, field_py_type))
    fields.

(** The body of the method [SchemaTranslation.typing_from_runner_api]; [rec]
    is the method itself, for the nested calls. *)
Definition typing_from_runner_api_body (rec : FieldType -> M py_type)
    (self : registry_ref) (fieldtype_proto : FieldType) : M py_type :=
  if nullable fieldtype_proto then
    let base_type := set_nullable false fieldtype_proto in
    let* base := rec base_type in
    match base with
    | TAny => ret base
    | _ => ret (Optional base)
    end
  else
  match type_info fieldtype_proto with
  | atomic_type a =>
      match dict_get a ATOMIC_TYPE_TO_PRIMITIVE with
      | Some c => ret (TClass c)
      | None => raise (ValueError (UnsupportedAtomicType a))
      end
  | array_type element_type =>
      let* t := rec element_type in
      ret (TSequence [t])
  | map_type key_type value_type =>
      let* k := rec key_type in
      let* v := rec value_type in
      ret (TMapping [k; v])
  | row_type schema =>
      let* user_type := get_typing_by_id self (schema_id schema) in
      match user_type with
      | None =>
          let type_name := "BeamSchema_" ++ replace "-"%char "_"%char (schema_id schema) in
          let* subfields := fields_from_runner_api rec (schema_fields schema) in
          let* user_type := NamedTuple type_name subfields in
          add self (Some user_type) schema ;;;
          register_coder user_type ;;;
          let* w := get_world in
          match from_user_type (TNamedTuple user_type) w with
          | Some result =>
              let* r := new_row_constraint result in
              set_schema_id result (Some r) (schema_id schema) ;;;
              ret (TRowConstraint r)
          | None => raise AttributeError
          end
      | Some user_type =>
          let* w := get_world in
          match from_user_type (TNamedTuple user_type) w with
          | Some result =>
              let* r := new_row_constraint result in
              ret (TRowConstraint r)
          | None => ret TNone
          end
      end
  | logical_type urn_ _ =>
      if decide (urn_ = PYTHON_ANY_URN) then ret TAny
      else
        let* logical_type_ := from_runner_api urn_ in
        ret (TClass (language_type logical_type_))
  | no_type_info => raise (ValueError UnrecognizedTypeInfo)
  end.

Fixpoint typing_from_runner_api (fuel : nat) (self : registry_ref)
    (fieldtype_proto : FieldType) : M py_type :=
  match fuel with
  | 0 => raise RecursionError
  | S fuel' =>
      typing_from_runner_api_body (typing_from_runner_api fuel' self) self
        fieldtype_proto
  end.

(** ** The logical types of the module *)

(** Modelled from the spec: [utils.timestamp.Timestamp], a microsecond
    resolution offset from the epoch, made from whole seconds and
    microseconds. *)
Module utils_timestamp.
Record Timestamp := of_micros { micros : Z }.

(** [Timestamp(seconds=seconds, micros=micros)] on integers. *)
Definition make (seconds micros : Z) : Timestamp :=
  of_micros (seconds * 1000000 + micros).
End utils_timestamp.

Definition MicrosInstantRepresentation_class : NamedTupleClass :=
  mkNamedTupleClass "MicrosInstantRepresentation"
    [("seconds", TClass np_int64); ("micros", TClass np_int64)] None.

Module MicrosInstant.
(** The values of the NamedTuple [MicrosInstantRepresentation]. *)
Record MicrosInstantRepresentation := mkRepresentation { seconds : Z; micros : Z }.

(** The class, given the address of [MicrosInstantRepresentation]. *)
Definition cls (representation : nat) : LogicalTypeClass :=
  mkLogicalTypeClass "beam:logical_type:micros_instant:v1" Timestamp
    (TNamedTuple representation).

(** On Python integers [//] rounds down and [%] has the sign of the
    divisor, as [Z.div] and [Z.modulo] do. *)
Definition to_representation_type (value : utils_timestamp.Timestamp)
    : MicrosInstantRepresentation :=
  mkRepresentation
    (utils_timestamp.micros value / 1000000)
    (utils_timestamp.micros value mod 1000000).

Definition to_language_type (value : MicrosInstantRepresentation)
    : utils_timestamp.Timestamp :=
  utils_timestamp.make (seconds value) (micros value).
End MicrosInstant.

Module PythonCallable.
Definition cls : LogicalTypeClass :=
  mkLogicalTypeClass "beam:logical_type:python_callable:v1"
    PythonCallableWithSource (TClass py_str).
End PythonCallable.

(** The world once the module is imported: both registries of schemas are
    empty, [MicrosInstantRepresentation] is the one NamedTuple class, and the
    two logical types are registered, in the order of the file.  The names of
    the worlds built on it are all ASCII, so that what the interpreter says of
    the other names is never asked; it is set to a refusal. *)
Definition imported (uuids : nat -> string) : world :=
  mkWorld ∅ ∅ [MicrosInstantRepresentation_class] []
    (register_logical_type PythonCallable.cls
       (register_logical_type (MicrosInstant.cls 0)
          (mkLogicalTypeRegistry ∅ [])))
    [] uuids 0 (fun _ => false).

(** ** The functions of the module around the translation *)

(** [named_fields_from_schema]: the default registry is the one in use. *)
Definition named_fields_from_schema (fuel : nat) (schema : Schema)
    : M (list (string * py_type)) :=
  for_each
    (fun field =>
       let* t := typing_from_runner_api fuel DefaultRegistry (field_type field) in
       ret (field_name field, t))
    (schema_fields schema).

(** [fieldtype.row_type.schema]: reading a member of the oneof that is not
    the one set gives the default message, a Schema with no field and the
    empty id. *)
Definition row_type_schema (fieldtype : FieldType) : Schema :=
  match type_info fieldtype with
  | row_type schema => schema
  | _ => mkSchema [] ""
  end.

Definition named_tuple_to_schema (fuel : nat) (named_tuple : py_type)
    (schema_registry : registry_ref) : M Schema :=
  let* fieldtype := typing_to_runner_api fuel schema_registry named_tuple in
  ret (row_type_schema fieldtype).

(** The callers below also fail with an [assert] or raise a TypeError. *)
Inductive caller_exn :=
  | Raised (e : exn)
  | AssertionFailed
      (* assert isinstance(row_type_constraint, row_type.RowTypeConstraint) *)
  | TypeError (element_type : py_type).
      (* "Could not determine schema for type hint ..." *)

Inductive caller_outcome (A : Type) :=
  | Done (a : A) (w : world)
  | Fail (e : caller_exn).
Arguments Done {A} a w.
Arguments Fail {A} e.

Definition run {A} (m : M A) (w : world) : caller_outcome A :=
  match m w with
  | Return a w' => Done a w'
  | Raise e => Fail (Raised e)
  end.

(** [named_tuple_from_schema]: the user type of the constraint that decoding
    the Row descriptor of [schema] gives. *)
Definition named_tuple_from_schema (fuel : nat) (schema : Schema)
    (schema_registry : registry_ref) (w : world) : caller_outcome (option nat) :=
  match typing_from_runner_api fuel schema_registry (RowFieldType schema) w with
  | Raise e => Fail (Raised e)
  | Return row_type_constraint w' =>
      match as_row_constraint row_type_constraint w' with
      | Some (rtc, _) => Done (user_type_of rtc) w'
      | None => Fail AssertionFailed
      end
  end.

(** Modelled from the spec: [match_is_named_tuple], true of the NamedTuple
    classes. *)
Definition match_is_named_tuple (user_type : py_type) (w : world) : bool :=
  match from_user_type user_type w with
  | Some _ => true
  | None => false
  end.

Definition schema_from_element_type (fuel : nat) (element_type : py_type)
    (w : world) : caller_outcome Schema :=
  match as_row_constraint element_type w with
  | Some (rtc, _) => run (named_fields_to_schema fuel (_fields rtc)) w
  | None =>
      if match_is_named_tuple element_type w
      then run (named_tuple_to_schema fuel element_type DefaultRegistry) w
      else Fail (TypeError element_type)
  end.

Definition named_fields_from_element_type (fuel : nat) (element_type : py_type)
    (w : world) : caller_outcome (list (string * py_type)) :=
  match schema_from_element_type fuel element_type w with
  | Done schema w' => run (named_fields_from_schema fuel schema) w'
  | Fail e => Fail e
  end.

(** * Notions for the statements *)

(** The typings that the translation gives back as they are: the scalars of
    [_PRIMITIVES], [Any], and the sequences, exact mappings and optionals of
    such typings (an optional of an optional or of [Any] is not a typing of
    its own). *)
Inductive canonical : py_type -> Prop :=
  | canonical_scalar c a :
      In (c, a) _PRIMITIVES -> canonical (TClass c)
  | canonical_Any : canonical TAny
  | canonical_Sequence t :
      canonical t -> canonical (TSequence [t])
  | canonical_Mapping k v :
      canonical k -> canonical v -> canonical (TMapping [k; v])
  | canonical_Optional t :
      canonical t -> t <> TAny -> (forall u, t <> TOptional u) ->
      canonical (TOptional t).

(** The registry that is not the one in use. *)
Definition other_registry (self : registry_ref) : registry_ref :=
  match self with
  | DefaultRegistry => PrivateRegistry
  | PrivateRegistry => DefaultRegistry
  end.

(** What encoding leaves alone: the other registry, the number of classes
    and of constraint objects, the coders, the logical types, the source of
    uuids. *)
Definition untouched_by_encoding (self : registry_ref) (w w' : world) : Prop :=
  registry_of (other_registry self) w' = registry_of (other_registry self) w /\
  length (classes w') = length (classes w) /\
  length (constraints w') = length (constraints w) /\
  coders_registry w' = coders_registry w /\
  _known_logical_types w' = _known_logical_types w /\
  uuid4 w' = uuid4 w.

(** What decoding leaves alone: the other registry, the logical types, the
    source of uuids and the number of values drawn from it. *)
Definition untouched_by_decoding (self : registry_ref) (w w' : world) : Prop :=
  registry_of (other_registry self) w' = registry_of (other_registry self) w /\
  _known_logical_types w' = _known_logical_types w /\
  uuid4 w' = uuid4 w /\
  uuid4_calls w' = uuid4_calls w.

(** Every id of the registry in use is still one. *)
Definition ids_kept (self : registry_ref) (w w' : world) : Prop :=
  forall i, is_Some (registry_of self w !! i) -> is_Some (registry_of self w' !! i).

(** The [k]-th value that the source will give next is an id of the
    registry. *)
Definition taken (self : registry_ref) (w : world) (k : nat) : Prop :=
  is_Some (registry_of self w !! uuid4 w (uuid4_calls w + k)).

(** The RowTypeConstraint that the translation works on for a composite
    [type_]: the object itself, with its address, or the constraint made from
    the NamedTuple class. *)
Definition constraint_of (type_ : py_type) (w : world)
    : option (RowTypeConstraint * option nat) :=
  match as_row_constraint type_ w with
  | Some (rtc, r) => Some (rtc, Some r)
  | None =>
      match from_user_type type_ w with
      | Some rtc => Some (rtc, None)
      | None => None
      end
  end.

(** A composite native type: a NamedTuple class of the world, or a
    RowTypeConstraint object of the world whose user type, if it has one, is a
    class of the world. *)
Definition is_composite (type_ : py_type) (w : world) : bool :=
  match constraint_of type_ w with
  | Some (rtc, _) =>
      match _identity rtc with
      | OfUserType c => bool_decide (is_Some (classes w !! c))
      | AdHoc _ => true
      end
  | None => false
  end.

(** The constraint has the schema id [sid] in [w]: its user type carries
    it, or the ad hoc object at [at_] holds it. *)
Definition has_schema_id (type_ : RowTypeConstraint) (at_ : option nat)
    (sid : string) (w : world) : Prop :=
  match _identity type_ with
  | OfUserType c =>
      exists cls, classes w !! c = Some cls /\ cls_schema_id cls = Some sid
  | AdHoc _ =>
      exists r rtc, at_ = Some r /\ constraints w !! r = Some rtc /\
                    _fields rtc = _fields type_ /\
                    _identity rtc = AdHoc (Some sid)
  end.

(** [m'] returns whatever [m] returns. *)
Definition refines {A} (m m' : M A) : Prop :=
  forall w a w', m w = Return a w' -> m' w = Return a w'.

(** [w'] comes after [w]: every class and every constraint of [w] is still
    there with its fields, a schema id that is carried or held is kept, and
    the source of uuids has only moved forward. *)
Record ext (w w' : world) : Prop := mk_ext {
  ext_classes :
    forall c cls, classes w !! c = Some cls ->
      exists cls', classes w' !! c = Some cls' /\
        cls_fields cls' = cls_fields cls /\
        (forall x, cls_schema_id cls = Some x -> cls_schema_id cls' = Some x);
  ext_constraints :
    forall r rtc, constraints w !! r = Some rtc ->
      exists rtc', constraints w' !! r = Some rtc' /\
        _fields rtc' = _fields rtc /\
        user_type_of rtc' = user_type_of rtc /\
        (forall x, _identity rtc = AdHoc (Some x) -> _identity rtc' = AdHoc (Some x));
  ext_uuid4 : uuid4 w' = uuid4 w;
  ext_calls : uuid4_calls w <= uuid4_calls w';
}.

Definition returns_ext {A} (m : M A) : Prop :=
  forall w a w', m w = Return a w' -> ext w w'.

(** The world after the synthesis of the NamedTuple class for [schema] with
    the decoded [subfields], from the world [w] in which the fields have been
    decoded. *)
Definition synthesized (self : registry_ref) (schema : Schema)
    (subfields : list (string * py_type)) (w : world) : world :=
  let c := length (classes w) in
  let type_name := "BeamSchema_" ++ replace "-"%char "_"%char (schema_id schema) in
  let w2 := with_classes (classes w ++ [mkNamedTupleClass type_name subfields None]) w in
  let w3 := with_registry self
              (<[schema_id schema := (Some c, schema)]> (registry_of self w2)) w2 in
  let w4 := with_coders (c :: coders_registry w3) w3 in
  let w5 := with_constraints
              (constraints w4 ++ [mkRowTypeConstraint subfields (OfUserType c)]) w4 in
  with_classes (alter (carry_schema_id (schema_id schema)) c (classes w5)) w5.

(** The name of the class that is synthesized for [schema]. *)
Definition synthesized_name (schema : Schema) : string :=
  "BeamSchema_" ++ replace "-"%char "_"%char (schema_id schema).

(** The field [field], decoded in [w] at depth [fuel], is the typing [t] in
    the class that is synthesized, and leaves the world [w']: [t] is what the
    descriptor of the field is decoded as, but for a Row descriptor, which is
    decoded as a constraint of a class and gives the class itself. *)
Inductive field_decoded (fuel : nat) (self : registry_ref) (field : Field)
    (w : world) : py_type -> world -> Prop :=
  | plain_field_decoded t w' :
      typing_from_runner_api fuel self (field_type field) w = Return t w' ->
      (forall r, t <> TRowConstraint r) ->
      field_decoded fuel self field w t w'
  | row_field_decoded r rtc c w' :
      typing_from_runner_api fuel self (field_type field) w
      = Return (TRowConstraint r) w' ->
      constraints w' !! r = Some rtc ->
      _identity rtc = OfUserType c ->
      field_decoded fuel self field w (TNamedTuple c) w'.

(** The fields decoded one after the other, each in the world that the one
    before has left, with their names. *)
Inductive fields_decoded (fuel : nat) (self : registry_ref)
    : list Field -> world -> list (string * py_type) -> world -> Prop :=
  | no_field_decoded w : fields_decoded fuel self [] w [] w
  | one_more_field_decoded field fields w t w1 subfields w2 :
      field_decoded fuel self field w t w1 ->
      fields_decoded fuel self fields w1 subfields w2 ->
      fields_decoded fuel self (field :: fields) w
        ((field_name field, t) :: subfields) w2.

(** A depth that is enough for the translation of a typing, either way. *)
Fixpoint depth (t : py_type) : nat :=
  match t with
  | TAny => 2
  | TOptional t => S (depth t)
  | TMapping args | TSequence args | TMappingLike args =>
      S (foldr (fun t n => depth t `max` n) 0 args)
  | _ => 1
  end.

(** One of the next hundred values of the source of uuids is no id of the
    registry. *)
Definition some_id_is_free (self : registry_ref) (w : world) : Prop :=
  exists k, k < 100 /\ ~ taken self w k.

(** A source of uuids that gives one value only. *)
Definition constant_uuids : world := imported (fun _ => "same").

(** A world whose source of uuids is stuck on an id that is taken. *)
Definition stuck_uuids : world :=
  with_registry DefaultRegistry {[ "taken" := (None, mkSchema [] "taken") ]}
    (imported (fun _ => "taken")).

(** A world whose source of uuids gives an id that is taken twice, and free
    ones afterwards. *)
Definition stuck_uuids_then_free : world :=
  with_registry DefaultRegistry {[ "taken" := (None, mkSchema [] "taken") ]}
    (imported (fun n => if decide (n < 2) then "taken" else "free")).

(** A NamedTuple class that mentions itself:
    [class Node(NamedTuple): value: int; next: Optional[Node]]. *)
Definition Node_class : NamedTupleClass :=
  mkNamedTupleClass "Node"
    [("value", TClass py_int); ("next", TOptional (TNamedTuple 0))] None.

Definition world_of_Node : world :=
  mkWorld ∅ ∅ [Node_class] [] (mkLogicalTypeRegistry ∅ []) [] (fun _ => "id") 0
    (fun _ => false).

(** The class [Node] is there, and the id that it carries, if any, is not an
    id of the default registry. *)
Definition Node_unregistered (w : world) : Prop :=
  exists cls, classes w !! 0 = Some cls /\
    cls_fields cls = cls_fields Node_class /\
    forall sid, cls_schema_id cls = Some sid -> SCHEMA_REGISTRY w !! sid = None.

(** A source of uuids that never gives the same value twice. *)
Definition counting_uuids (n : nat) : string := pretty n.

(** * Properties *)

(** ** Running computations *)

Lemma bind_Return {A B} (m : M A) (f : A -> M B) w b w' :
  bind m f w = Return b w' <->
  exists a w1, m w = Return a w1 /\ f a w1 = Return b w'.
Proof.
  unfold bind. split.
  - destruct (m w) as [a w1|e]; [eauto | discriminate].
  - intros (a & w1 & -> & ?). done.
Qed.

Lemma bind_Raise {A B} (m : M A) (f : A -> M B) w e :
  m w = Raise e -> bind m f w = Raise e.
Proof. unfold bind. by intros ->. Qed.

Lemma bind_step {A B} (m : M A) (f : A -> M B) w a w1 :
  m w = Return a w1 -> bind m f w = f a w1.
Proof. unfold bind. by intros ->. Qed.

(** The scalars of the two tables. *)
Lemma primitive_to_atomic_table :
  map (fun c => primitive_to_atomic (TClass c))
    [np_int8; np_int16; np_int32; np_int64; np_float32; np_float64;
     py_str; py_bool; py_bytes; ByteString; py_int; py_float]
  = map Some
      [BYTE; INT16; INT32; INT64; FLOAT; DOUBLE;
       STRING; BOOLEAN; BYTES; BYTES; INT64; DOUBLE].
Proof. reflexivity. Qed.

Lemma encode_primitive fuel self c atomic w :
  primitive_to_atomic (TClass c) = Some atomic ->
  typing_to_runner_api (S fuel) self (TClass c) w
  = Return (mkFieldType false (atomic_type atomic)) w.
Proof.
  intros H. cbn [typing_to_runner_api]. unfold typing_to_runner_api_body.
  unfold bind, get_world. cbn [as_row_constraint from_user_type].
  by rewrite H.
Qed.

Lemma decode_atomic fuel self a c w :
  dict_get a ATOMIC_TYPE_TO_PRIMITIVE = Some c ->
  typing_from_runner_api (S fuel) self (mkFieldType false (atomic_type a)) w
  = Return (TClass c) w.
Proof.
  intros H. cbn [typing_from_runner_api]. unfold typing_from_runner_api_body.
  cbn [nullable type_info]. by rewrite H.
Qed.

(** ** Atomic types *)

(** C5. For each of the nine scalars of [_PRIMITIVES] (np.int8, np.int16,
    np.int32, np.int64, np.float32, np.float64, str, bool, bytes), whatever
    the registry and the world, encoding the scalar gives its atomic
    descriptor and changes nothing, and decoding that descriptor gives the
    scalar back: typing_from_runner_api(typing_to_runner_api(T)) == T. *)
Theorem bijective_atomic_round_trip :
  map fst _PRIMITIVES
  = [np_int8; np_int16; np_int32; np_int64; np_float32; np_float64;
     py_str; py_bool; py_bytes] /\
  Forall
    (fun '(typ, atomic) =>
       forall fuel fuel' self w,
         typing_to_runner_api (S fuel) self (TClass typ) w
         = Return (mkFieldType false (atomic_type atomic)) w /\
         (let* d := typing_to_runner_api (S fuel) self (TClass typ) in
          typing_from_runner_api (S fuel') self d) w
         = Return (TClass typ) w)
    _PRIMITIVES.
Proof.
  split; [reflexivity|].
  unfold _PRIMITIVES.
  repeat (constructor;
          [ cbv beta iota; intros fuel fuel' self w;
            split;
            [ by apply encode_primitive
            | erewrite bind_step by (by apply encode_primitive);
              by apply decode_atomic ]
          | ]).
  constructor.
Qed.

(** C7. Encoding Python's [int] gives the INT64 atomic descriptor, and
    decoding that descriptor gives np.int64, not [int]:
    decode(encode(int)) == np.int64. *)
Theorem int_is_lossy :
  forall fuel fuel' self w,
    typing_to_runner_api (S fuel) self (TClass py_int) w
    = Return (mkFieldType false (atomic_type INT64)) w /\
    typing_from_runner_api (S fuel') self (mkFieldType false (atomic_type INT64)) w
    = Return (TClass np_int64) w /\
    (let* d := typing_to_runner_api (S fuel) self (TClass py_int) in
     typing_from_runner_api (S fuel') self d) w
    = Return (TClass np_int64) w /\
    TClass np_int64 <> TClass py_int.
Proof.
  intros fuel fuel' self w.
  assert (He : typing_to_runner_api (S fuel) self (TClass py_int) w
               = Return (mkFieldType false (atomic_type INT64)) w)
    by (by apply encode_primitive).
  assert (Hd : typing_from_runner_api (S fuel') self
                 (mkFieldType false (atomic_type INT64)) w
               = Return (TClass np_int64) w)
    by (by apply decode_atomic).
  split; [done|]. split; [done|]. split; [|done].
  by erewrite bind_step by exact He.
Qed.

(** ** The instant logical type *)

(** C8. For every Timestamp [v], of any sign and with any sub-second part,
    MicrosInstant.to_language_type(MicrosInstant.to_representation_type(v))
    is [v]; and an offset of 1,500,000 microseconds has the representation
    (seconds = 1, micros = 500000). *)
Theorem MicrosInstant_round_trip :
  (forall v : utils_timestamp.Timestamp,
     MicrosInstant.to_language_type (MicrosInstant.to_representation_type v) = v) /\
  MicrosInstant.to_representation_type (utils_timestamp.of_micros 1500000)
  = MicrosInstant.mkRepresentation 1 500000.
Proof.
  split; [|reflexivity].
  intros [m].
  unfold MicrosInstant.to_language_type, MicrosInstant.to_representation_type,
    utils_timestamp.make.
  cbn. f_equal.
  pose proof (Z.div_mod m 1000000). lia.
Qed.

(** ** Decoding logical types *)

(** C9. Decoding a descriptor Logical(urn, _): when the urn is
    PYTHON_ANY_URN the result is [Any]; otherwise, when no logical type is
    registered for the urn, a ValueError that names the urn is raised;
    otherwise the result is the language type of the registered logical
    type.  No world is changed.  When the descriptor is moreover nullable,
    the outcome is the same, with the language type under [Optional]. *)
Theorem decode_logical_type :
  forall fuel self urn_ representation w,
    typing_from_runner_api (S fuel) self
      (mkFieldType false (logical_type urn_ representation)) w
    = (if decide (urn_ = PYTHON_ANY_URN) then Return TAny w
       else match get_logical_type_by_urn (_known_logical_types w) urn_ with
            | None => Raise (ValueError (NoLogicalTypeForURN urn_))
            | Some logical_type_ =>
                Return (TClass (language_type logical_type_)) w
            end) /\
    typing_from_runner_api (S (S fuel)) self
      (mkFieldType true (logical_type urn_ representation)) w
    = (if decide (urn_ = PYTHON_ANY_URN) then Return TAny w
       else match get_logical_type_by_urn (_known_logical_types w) urn_ with
            | None => Raise (ValueError (NoLogicalTypeForURN urn_))
            | Some logical_type_ =>
                Return (TOptional (TClass (language_type logical_type_))) w
            end).
Proof.
  intros fuel self urn_ representation w.
  assert (H : forall fuel,
    typing_from_runner_api (S fuel) self
      (mkFieldType false (logical_type urn_ representation)) w
    = (if decide (urn_ = PYTHON_ANY_URN) then Return TAny w
       else match get_logical_type_by_urn (_known_logical_types w) urn_ with
            | None => Raise (ValueError (NoLogicalTypeForURN urn_))
            | Some logical_type_ =>
                Return (TClass (language_type logical_type_)) w
            end)).
  { intros fuel0. cbn [typing_from_runner_api].
    unfold typing_from_runner_api_body. cbn [nullable type_info].
    destruct (decide (urn_ = PYTHON_ANY_URN)); [done|].
    unfold from_runner_api, bind, get_world.
    by destruct (get_logical_type_by_urn _ _). }
  split; [apply H|].
  change (typing_from_runner_api (S (S fuel)) self
            (mkFieldType true (logical_type urn_ representation)) w)
    with (typing_from_runner_api_body (typing_from_runner_api (S fuel) self) self
            (mkFieldType true (logical_type urn_ representation)) w).
  unfold typing_from_runner_api_body at 1. cbn [nullable set_nullable type_info].
  unfold bind at 1. rewrite H.
  destruct (decide (urn_ = PYTHON_ANY_URN)); [done|].
  by destruct (get_logical_type_by_urn _ _).
Qed.

(** ** Encoding types that nothing recognises *)

(** C1, as stated, fails: encoding the NamedTuple class
    [MicrosInstantRepresentation], which carries no schema id, asks
    [generate_new_id] for one; when the hundred tries all give an id of the
    registry, the AssertionError of [generate_new_id] comes out of
    [typing_to_runner_api], whatever the depth allowed. *)
Lemma encode_raises_when_ids_run_out :
  typing_to_runner_api 1 DefaultRegistry (TNamedTuple 0) stuck_uuids
  = Raise (AssertionError 1) /\
  ~ (exists fuel d w',
       typing_to_runner_api fuel DefaultRegistry (TNamedTuple 0) stuck_uuids
       = Return d w').
Proof.
  split; [by vm_compute|].
  intros (fuel & d & w' & H).
  destruct fuel as [|fuel]; [discriminate|].
  by vm_compute in H.
Qed.

(** C1, amended.  A type that is no Schema, no RowTypeConstraint and no
    NamedTuple class, that is no key of the atomic table, that is neither an
    exact mapping, an optional, a sequence nor a mapping, and for which no
    logical type is registered, is encoded as Logical(urn = PYTHON_ANY_URN)
    with nullable = true: nothing is raised and no world is changed. *)
Theorem unknown_type_is_any_placeholder :
  forall fuel self type_ w,
    (forall s, type_ <> TSchemaProto s) ->
    as_row_constraint type_ w = None ->
    from_user_type type_ w = None ->
    primitive_to_atomic type_ = None ->
    _match_is_exactly_mapping type_ = false ->
    _match_is_optional type_ = false ->
    _safe_issubclass type_ Sequence = false ->
    _safe_issubclass type_ Mapping = false ->
    get_logical_type_by_language_type (_known_logical_types w) type_ = None ->
    typing_to_runner_api (S fuel) self type_ w
    = Return (mkFieldType true (logical_type PYTHON_ANY_URN None)) w.
Proof.
  intros fuel self type_ w Hs Hr Hu Hp Hm Ho Hq Hg Hl.
  cbn [typing_to_runner_api].
  unfold typing_to_runner_api_body, try_except_ValueError, from_typing,
    bind, get_world.
  rewrite Hr, Hu, Hp, Hm, Ho, Hq, Hg.
  destruct type_ as [c| | |s|c|r|args|t|args|args];
    try (by rewrite Hl); by destruct (Hs s).
Qed.

Lemma unknown_type_is_any_placeholder_witness :
  typing_to_runner_api 1 DefaultRegistry (TClass (OtherClass "object"))
    (imported (fun _ => "a"))
  = Return (mkFieldType true (logical_type PYTHON_ANY_URN None))
      (imported (fun _ => "a")).
Proof.
  apply (unknown_type_is_any_placeholder 0 DefaultRegistry
           (TClass (OtherClass "object")) (imported (fun _ => "a")));
    first [ reflexivity | by intros s ].
Defined.

(** ** More depth never changes a result *)

Lemma refines_refl {A} (m : M A) : refines m m.
Proof. by intros w a w'. Qed.

Lemma refines_bind {A B} (m m' : M A) (f f' : A -> M B) :
  refines m m' -> (forall a, refines (f a) (f' a)) ->
  refines (bind m f) (bind m' f').
Proof.
  intros Hm Hf w b w' (a & w1 & H1 & H2)%bind_Return.
  apply bind_Return. exists a, w1. split; [by apply Hm | by apply Hf].
Qed.

Lemma refines_for_each {A B} (f f' : A -> M B) (l : list A) :
  (forall x, refines (f x) (f' x)) ->
  refines (for_each f l) (for_each f' l).
Proof.
  intros Hf. induction l as [|x l IH]; cbn [for_each].
  - apply refines_refl.
  - apply refines_bind; [apply Hf|]. intros y.
    apply refines_bind; [apply IH|]. intros ys. apply refines_refl.
Qed.

Lemma refines_try {A B} (body : M A) (except_ : value_error -> M B)
    (else_ else_' : A -> M B) :
  (forall a, refines (else_ a) (else_' a)) ->
  refines (try_except_ValueError body except_ else_)
          (try_except_ValueError body except_ else_').
Proof.
  intros He w b w'. unfold try_except_ValueError.
  destruct (body w) as [a w1|[]]; try done. apply He.
Qed.

Ltac refines_step :=
  first
    [ apply refines_refl
    | apply refines_try; intros ?
    | apply refines_for_each; intros ?
    | apply refines_bind; [|intros ?]
    | match goal with
      | |- refines (match ?x with _ => _ end) (match ?x with _ => _ end) =>
          destruct x
      | |- refines (let '(_, _) := ?x in _) (let '(_, _) := ?x in _) =>
          destruct x
      end ].

Lemma unpack_two_refines (rec rec' : py_type -> M FieldType) args :
  (forall t, refines (rec t) (rec' t)) ->
  refines (unpack_two rec args) (unpack_two rec' args).
Proof.
  intros Hrec. unfold unpack_two.
  destruct args as [|k [|v [|x args]]]; repeat refines_step; apply Hrec.
Qed.

Lemma row_constraint_refines (rec rec' : py_type -> M FieldType) self type_ at_ :
  (forall t, refines (rec t) (rec' t)) ->
  refines (row_constraint_to_runner_api rec self type_ at_)
          (row_constraint_to_runner_api rec' self type_ at_).
Proof.
  intros Hrec. unfold row_constraint_to_runner_api.
  repeat refines_step; apply Hrec.
Qed.

Lemma typing_to_runner_api_body_refines (rec rec' : py_type -> M FieldType)
    self type_ :
  (forall t, refines (rec t) (rec' t)) ->
  refines (typing_to_runner_api_body rec self type_)
          (typing_to_runner_api_body rec' self type_).
Proof.
  intros Hrec. unfold typing_to_runner_api_body.
  apply refines_bind; [apply refines_refl|]. intros w.
  destruct type_;
    repeat first
      [ apply Hrec
      | by apply unpack_two_refines
      | by apply row_constraint_refines
      | refines_step ].
Qed.

Lemma typing_to_runner_api_S fuel self type_ :
  refines (typing_to_runner_api fuel self type_)
          (typing_to_runner_api (S fuel) self type_).
Proof.
  revert type_. induction fuel as [|fuel IH]; intros type_.
  - by intros w a w'.
  - change (refines
              (typing_to_runner_api_body (typing_to_runner_api fuel self) self type_)
              (typing_to_runner_api_body (typing_to_runner_api (S fuel) self) self type_)).
    by apply typing_to_runner_api_body_refines.
Qed.

Lemma typing_to_runner_api_more_fuel fuel fuel' self type_ :
  fuel <= fuel' ->
  refines (typing_to_runner_api fuel self type_)
          (typing_to_runner_api fuel' self type_).
Proof.
  induction 1 as [|fuel' _ IH]; [apply refines_refl|].
  intros w a w' H. by apply typing_to_runner_api_S, IH.
Qed.

(** ** Optional *)

Lemma Optional_idempotent t : Optional (Optional t) = Optional t.
Proof. by destruct t. Qed.

Lemma set_nullable_idempotent b d : set_nullable b (set_nullable b d) = set_nullable b d.
Proof. by destruct d. Qed.

Lemma encode_TOptional fuel self t w :
  typing_to_runner_api (S fuel) self (TOptional t) w
  = (let* result := typing_to_runner_api fuel self t in
     ret (set_nullable true result)) w.
Proof. reflexivity. Qed.

Lemma encode_TNone fuel self w d w' :
  typing_to_runner_api fuel self TNone w = Return d w' ->
  d = any_placeholder /\ w' = w.
Proof.
  destruct fuel as [|fuel]; [discriminate|].
  cbn [typing_to_runner_api].
  unfold typing_to_runner_api_body, try_except_ValueError, from_typing,
    bind, get_world.
  cbn. intros [= <- <-]. done.
Qed.

(** C6. Encoding Optional[Optional[T]] is encoding Optional[T], in every
    world; and when encoding T gives a descriptor [d], encoding
    Optional[Optional[T]] gives that one descriptor with nullable = true, and
    leaves the world as encoding T does. *)
Theorem nullable_is_idempotent :
  forall fuel self T w,
    typing_to_runner_api fuel self (Optional (Optional T)) w
    = typing_to_runner_api fuel self (Optional T) w /\
    (forall d w',
       typing_to_runner_api fuel self T w = Return d w' ->
       typing_to_runner_api (S fuel) self (Optional (Optional T)) w
       = Return (set_nullable true d) w').
Proof.
  intros fuel self T w. rewrite Optional_idempotent. split; [done|].
  intros d w' H.
  destruct T as [c| | |s|c|r|args|t|args|args];
    try (cbn [Optional]; rewrite encode_TOptional;
         by erewrite bind_step by exact H).
  - (* Optional[None] is type(None) *)
    cbn [Optional]. by apply encode_TNone in H as [-> ->].
  - (* T is an optional already *)
    cbn [Optional].
    assert (Hd : set_nullable true d = d).
    { destruct fuel as [|fuel]; [discriminate|].
      rewrite encode_TOptional in H.
      apply bind_Return in H as (d0 & w1 & _ & [= <- <-]).
      apply set_nullable_idempotent. }
    rewrite Hd. by apply typing_to_runner_api_S.
Qed.

Lemma nullable_is_idempotent_witness :
  typing_to_runner_api 2 DefaultRegistry
    (Optional (Optional (TClass py_bool))) (imported (fun _ => "a"))
  = Return (mkFieldType true (atomic_type BOOLEAN)) (imported (fun _ => "a")).
Proof.
  exact (proj2 (nullable_is_idempotent 1 DefaultRegistry (TClass py_bool)
                  (imported (fun _ => "a")))
           (mkFieldType false (atomic_type BOOLEAN)) (imported (fun _ => "a"))
           eq_refl).
Defined.

(** ** What a translation keeps of the world *)

Lemma ext_refl w : ext w w.
Proof. split; eauto. Qed.

Lemma ext_trans w1 w2 w3 : ext w1 w2 -> ext w2 w3 -> ext w1 w3.
Proof.
  intros [C1 R1 U1 N1] [C2 R2 U2 N2]. split.
  - intros c cls H. destruct (C1 _ _ H) as (cls' & H' & Hf & Hi).
    destruct (C2 _ _ H') as (cls'' & H'' & Hf' & Hi').
    exists cls''. split; [done|]. split; [congruence|]. eauto.
  - intros r rtc H. destruct (R1 _ _ H) as (rtc' & H' & Hf & Hu & Hi).
    destruct (R2 _ _ H') as (rtc'' & H'' & Hf' & Hu' & Hi').
    exists rtc''. split; [done|]. split; [congruence|]. split; [congruence|].
    eauto.
  - congruence.
  - lia.
Qed.

Lemma ext_same w w' :
  classes w' = classes w -> constraints w' = constraints w ->
  uuid4 w' = uuid4 w -> uuid4_calls w <= uuid4_calls w' -> ext w w'.
Proof. intros Hc Hr Hu Hn. split; rewrite ?Hc, ?Hr; eauto. Qed.

Lemma ext_with_registry self m w : ext w (with_registry self m w).
Proof. destruct self; by apply ext_same. Qed.

Lemma ext_with_coders cs w : ext w (with_coders cs w).
Proof. by apply ext_same. Qed.

Lemma ext_with_uuid4_calls n w : uuid4_calls w <= n -> ext w (with_uuid4_calls n w).
Proof. intros. by apply ext_same. Qed.

Lemma ext_new_class cls w : ext w (with_classes (classes w ++ [cls]) w).
Proof.
  split; cbn; eauto.
  intros c cls0 H. exists cls0.
  rewrite lookup_app_l by (by eapply lookup_lt_Some). eauto.
Qed.

Lemma ext_new_constraint rtc w : ext w (with_constraints (constraints w ++ [rtc]) w).
Proof.
  split; cbn; eauto.
  intros r rtc0 H. exists rtc0.
  rewrite lookup_app_l by (by eapply lookup_lt_Some). eauto.
Qed.

(** [generate_new_id] answers a value of the source that is not an id of
    the registry, and only moves the source forward. *)
Lemma generate_new_id_tries_Return self tries w schema_id_ w' :
  generate_new_id_tries self tries w = Return schema_id_ w' ->
  exists k, uuid4_calls w <= k /\ schema_id_ = uuid4 w k /\
            registry_of self w !! schema_id_ = None /\
            w' = with_uuid4_calls (S k) w.
Proof.
  revert w. induction tries as [|tries IH]; intros w; cbn [generate_new_id_tries].
  - discriminate.
  - unfold bind, get_world, modify.
    destruct (registry_of self w !! uuid4 w (uuid4_calls w)) as [taken|] eqn:Hin.
    + intros H. apply IH in H as (k & Hk & -> & Hnone & ->).
      exists k. cbn in Hk. split; [lia|]. split; [done|]. split; [|done].
      by destruct self.
    + intros [= <- <-]. exists (uuid4_calls w). by destruct self.
Qed.

Lemma generate_new_id_Return self w schema_id_ w' :
  generate_new_id self w = Return schema_id_ w' ->
  exists k, uuid4_calls w <= k /\ schema_id_ = uuid4 w k /\
            registry_of self w !! schema_id_ = None /\
            w' = with_uuid4_calls (S k) w.
Proof. apply generate_new_id_tries_Return. Qed.

Lemma generate_new_id_ext self : returns_ext (generate_new_id self).
Proof.
  intros w a w' (k & Hk & _ & _ & ->)%generate_new_id_Return.
  apply ext_with_uuid4_calls. lia.
Qed.

(** Giving an id to a constraint that has none. *)
Lemma set_schema_id_ext type_ at_ schema_id_ w w' :
  schema_id_of type_ w = None ->
  (forall r, at_ = Some r -> constraints w !! r = Some type_) ->
  set_schema_id type_ at_ schema_id_ w = Return tt w' ->
  ext w w'.
Proof.
  unfold set_schema_id, schema_id_of.
  destruct type_ as [fields [c|own]]; cbn [_identity _fields].
  - intros Hnone _ [= <-]. split; cbn; eauto.
    intros c' cls H. rewrite list_lookup_alter.
    destruct (decide (c = c')) as [<-|]; [|eauto].
    rewrite H in *. cbn in *. eexists. split; [done|]. split; [done|].
    intros x Hx. congruence.
  - intros -> Hat. destruct at_ as [r|]; intros [= <-]; [|apply ext_refl].
    specialize (Hat r eq_refl). split; cbn; eauto.
    intros r' rtc H.
    destruct (decide (r = r')) as [<-|].
    + rewrite list_lookup_insert_eq by (by eapply lookup_lt_Some).
      eexists. split; [done|]. rewrite Hat in H. injection H as <-.
      cbn. done.
    + rewrite list_lookup_insert_ne by done. eauto.
Qed.

Lemma add_ext self typing schema : returns_ext (add self typing schema).
Proof.
  intros w a w'. unfold add, bind, get_world, modify. intros [= _ <-].
  apply ext_with_registry.
Qed.

Lemma for_each_ext {A B} (f : A -> M B) l :
  (forall x, returns_ext (f x)) -> returns_ext (for_each f l).
Proof.
  intros Hf. induction l as [|x l IH]; intros w ys w'; cbn [for_each].
  - intros [= _ <-]. apply ext_refl.
  - intros (y & w1 & H1 & (ys' & w2 & H2 & [= _ <-])%bind_Return)%bind_Return.
    eapply ext_trans; [by eapply Hf|by eapply IH].
Qed.

(** ** The steps of the RowTypeConstraint branch *)

(** A run of the branch that returns is one of two: the schema was found
    under the id of the type, and nothing changed; or the id was there or
    was generated and attached ([w1]), then the fields were translated from
    [w1] to [w2], then the schema was added to the registry. *)
Lemma row_constraint_Return rec self type_ at_ w d w' :
  row_constraint_to_runner_api rec self type_ at_ w = Return d w' ->
  (exists schema_id_ typing schema,
      schema_id_of type_ w = Some schema_id_ /\
      registry_of self w !! schema_id_ = Some (typing, schema) /\
      d = RowFieldType schema /\ w' = w)
  \/
  (exists schema_id_ w1 fields w2,
      ((schema_id_of type_ w = None /\
        exists w0, generate_new_id DefaultRegistry w = Return schema_id_ w0 /\
                   set_schema_id type_ at_ schema_id_ w0 = Return tt w1)
       \/ (schema_id_of type_ w = Some schema_id_ /\
           registry_of self w !! schema_id_ = None /\ w1 = w)) /\
      fields_to_runner_api rec (_fields type_) w1 = Return fields w2 /\
      w' = with_registry self
             (<[schema_id_ := (user_type_of type_, mkSchema fields schema_id_)]>
                (registry_of self w2)) w2 /\
      d = RowFieldType (mkSchema fields schema_id_)).
Proof.
  unfold row_constraint_to_runner_api.
  intros (w0 & w0' & [= <- <-] & H)%bind_Return.
  apply bind_Return in H as ([schema_id_ schema] & w1 & H1 & H2).
  destruct (schema_id_of type_ w) as [sid|] eqn:Hid.
  - unfold get_schema_by_id, bind, get_world in H1.
    destruct (registry_of self w !! sid) as [[typing sch]|] eqn:Hreg;
      injection H1 as <- <- <-.
    + left. injection H2 as <- <-. by exists sid, typing, sch.
    + right.
      apply bind_Return in H2 as (fields & w2 & Hf & H2).
      unfold add, bind, get_world, modify, ret in H2. injection H2 as <- <-.
      exists sid, w, fields, w2. split; [right; done|]. done.
  - apply bind_Return in H1 as (sid & w0 & Hgen & H1).
    apply bind_Return in H1 as ([] & w1' & Hset & [= <- <- <-]).
    right.
    apply bind_Return in H2 as (fields & w2 & Hf & H2).
    unfold add, bind, get_world, modify, ret in H2. injection H2 as <- <-.
    exists sid, w1', fields, w2. split; [left; split; [done|by exists w0]|]. done.
Qed.

Lemma fields_to_runner_api_names rec fields w fs w' :
  fields_to_runner_api rec fields w = Return fs w' ->
  map field_name fs = map fst fields.
Proof.
  unfold fields_to_runner_api. revert w fs w'.
  induction fields as [|[name t] fields IH]; intros w fs w'; cbn [for_each].
  - by intros [= <- _].
  - intros (f & w1 & H1 & (fs' & w2 & H2 & [= <- _])%bind_Return)%bind_Return.
    cbv beta iota in H1.
    apply bind_Return in H1 as (d & w0 & _ & [= <- _]).
    cbn. f_equal. by eapply IH.
Qed.

Lemma fields_to_runner_api_ext rec fields :
  (forall t, returns_ext (rec t)) ->
  returns_ext (fields_to_runner_api rec fields).
Proof.
  intros Hrec. apply for_each_ext. intros [name t] w f w' H.
  cbv beta iota in H.
  apply bind_Return in H as (d & w1 & H & [= _ <-]). by eapply Hrec.
Qed.

Lemma row_constraint_ext rec self type_ at_ w d w' :
  (forall t, returns_ext (rec t)) ->
  (forall r, at_ = Some r -> constraints w !! r = Some type_) ->
  row_constraint_to_runner_api rec self type_ at_ w = Return d w' ->
  ext w w'.
Proof.
  intros Hrec Hat H.
  apply row_constraint_Return in H
    as [(sid & typing & schema & _ & _ & _ & ->)
       |(sid & w1 & fields & w2 & Hstart & Hf & -> & _)].
  - apply ext_refl.
  - assert (ext w w1) as H1.
    { destruct Hstart as [(Hnone & w0 & Hgen & Hset)|(_ & _ & ->)];
        [|apply ext_refl].
      pose proof Hgen as (k & _ & _ & _ & ->)%generate_new_id_Return.
      eapply ext_trans; [by eapply generate_new_id_ext|].
      eapply set_schema_id_ext; [| |exact Hset]; done. }
    eapply ext_trans; [exact H1|].
    eapply ext_trans; [by eapply fields_to_runner_api_ext|].
    apply ext_with_registry.
Qed.

Lemma unpack_two_ext rec args :
  (forall t, returns_ext (rec t)) -> returns_ext (unpack_two rec args).
Proof.
  intros Hrec w [k v] w'. unfold unpack_two.
  destruct args as [|a [|b [|c args]]]; try discriminate.
  - intros (x & w1 & _ & [=])%bind_Return.
  - intros (x & w1 & H1 & (y & w2 & H2 & [= _ _ <-])%bind_Return)%bind_Return.
    eapply ext_trans; by eapply Hrec.
  - intros (x & w1 & _ & (y & w2 & _ & (z & w3 & _ & [=])%bind_Return)
              %bind_Return)%bind_Return.
Qed.

Lemma typing_to_runner_api_body_ext rec self type_ :
  (forall t, returns_ext (rec t)) ->
  returns_ext (typing_to_runner_api_body rec self type_).
Proof.
  intros Hrec w d w'. unfold typing_to_runner_api_body.
  intros (w0 & w0' & [= <- <-] & H)%bind_Return.
  destruct type_ as [c| | |s|c|r|args|t|args|args]; cbn in H.
  all: try (injection H as _ <-; apply ext_refl).
  all: repeat match type of H with
       | match ?x with _ => _ end _ = _ => destruct x eqn:?
       end.
  all: try (injection H as _ <-; apply ext_refl).
  all: try discriminate.
  all: try (by eapply row_constraint_ext; [exact Hrec| |exact H];
            intros ? [= <-]; simplify_option_eq).
  all: try (apply bind_Return in H as (x & w1 & H1 & [= _ <-]);
            first [ by eapply Hrec | by eapply unpack_two_ext ]).
  all: try (apply bind_Return in H as ([k v] & w1 & H1 & [= _ <-]);
            by eapply unpack_two_ext).
  all: unfold try_except_ValueError, from_typing, bind, get_world in H;
       cbn in H.
  all: repeat match type of H with
       | match ?x with _ => _ end = _ => destruct x eqn:?
       | match ?x with _ => _ end _ = _ => destruct x eqn:?
       end; simplify_eq; try apply ext_refl; try by eapply Hrec.
  all: unfold ret, raise in *; repeat case_match; simplify_eq.
  all: first [ apply ext_refl | by eapply Hrec ].
Qed.

Lemma typing_to_runner_api_ext fuel self type_ :
  returns_ext (typing_to_runner_api fuel self type_).
Proof.
  revert type_. induction fuel as [|fuel IH]; intros type_.
  - by intros w d w'.
  - cbn [typing_to_runner_api]. by apply typing_to_runner_api_body_ext.
Qed.

(** ** Composite types *)

Lemma encode_composite fuel self type_ rtc at_ w :
  constraint_of type_ w = Some (rtc, at_) ->
  typing_to_runner_api (S fuel) self type_ w
  = row_constraint_to_runner_api (typing_to_runner_api fuel self) self rtc at_ w.
Proof.
  unfold constraint_of. intros H.
  cbn [typing_to_runner_api]. unfold typing_to_runner_api_body.
  unfold bind at 1. unfold get_world at 1.
  destruct type_ as [c| | |s|c|r|args|t|args|args]; try discriminate.
  - cbn [as_row_constraint] in *.
    destruct (from_user_type (TNamedTuple c) w); by simplify_eq.
  - destruct (as_row_constraint (TRowConstraint r) w) as [[rtc' r']|];
      [by simplify_eq|].
    cbn in H. discriminate.
Qed.

Lemma constraint_of_at type_ rtc r w :
  constraint_of type_ w = Some (rtc, Some r) ->
  type_ = TRowConstraint r /\ constraints w !! r = Some rtc.
Proof.
  unfold constraint_of.
  destruct type_ as [c| | |s|c|r'|args|t|args|args]; cbn; try discriminate.
  - destruct (classes w !! c); discriminate.
  - destruct (constraints w !! r') as [rtc'|] eqn:Hr; cbn; [|discriminate].
    by intros [= <- <-].
Qed.

Lemma constraint_of_class type_ rtc w :
  constraint_of type_ w = Some (rtc, None) ->
  exists c cls, type_ = TNamedTuple c /\ classes w !! c = Some cls /\
                rtc = mkRowTypeConstraint (cls_fields cls) (OfUserType c).
Proof.
  unfold constraint_of.
  destruct type_ as [c| | |s|c|r'|args|t|args|args]; cbn; try discriminate.
  - destruct (classes w !! c) as [cls|] eqn:Hc; [|discriminate].
    intros [= <-]. by exists c, cls.
  - destruct (constraints w !! r') as [rtc'|]; cbn; discriminate.
Qed.

Lemma has_schema_id_ext type_ at_ sid w w' :
  ext w w' -> has_schema_id type_ at_ sid w -> has_schema_id type_ at_ sid w'.
Proof.
  intros [C R _ _]. unfold has_schema_id. destruct (_identity type_) as [c|own].
  - intros (cls & H & Hid). destruct (C _ _ H) as (cls' & H' & _ & Hi). eauto.
  - intros (r & rtc & -> & H & Hf & Hid).
    destruct (R _ _ H) as (rtc' & H' & Hf' & _ & Hi).
    exists r, rtc'. split; [done|]. split; [done|]. split; [congruence|]. eauto.
Qed.

(** When the schema is in the registry under the id of the type, the branch
    answers it and changes nothing. *)
Lemma row_constraint_found rec self type_ at_ sid typing schema w :
  schema_id_of type_ w = Some sid ->
  registry_of self w !! sid = Some (typing, schema) ->
  row_constraint_to_runner_api rec self type_ at_ w
  = Return (RowFieldType schema) w.
Proof.
  intros Hid Hreg. unfold row_constraint_to_runner_api.
  unfold bind at 1. unfold get_world at 1. rewrite Hid.
  unfold get_schema_by_id, bind, get_world. by rewrite Hreg.
Qed.

(** After a run of the branch, the type has an id and the registry has, under
    that id, the schema that the run answered. *)
Lemma row_constraint_registered rec self type_ at_ w d w' :
  (forall t, returns_ext (rec t)) ->
  (forall r, at_ = Some r -> constraints w !! r = Some type_) ->
  (forall c, _identity type_ = OfUserType c -> is_Some (classes w !! c)) ->
  (forall own, _identity type_ = AdHoc own -> is_Some at_) ->
  row_constraint_to_runner_api rec self type_ at_ w = Return d w' ->
  exists sid typing schema,
    d = RowFieldType schema /\
    registry_of self w' !! sid = Some (typing, schema) /\
    has_schema_id type_ at_ sid w'.
Proof.
  intros Hrec Hat Hcls Hown H.
  assert (Hhas : forall sid, schema_id_of type_ w = Some sid ->
                             has_schema_id type_ at_ sid w).
  { intros sid. unfold schema_id_of, has_schema_id.
    destruct (_identity type_) as [c|own] eqn:Hi.
    - destruct (classes w !! c) as [cls|]; cbn; [|discriminate]. eauto.
    - intros ->. destruct (Hown _ eq_refl) as [r ->].
      exists r, type_. by rewrite (Hat r eq_refl). }
  apply row_constraint_Return in H
    as [(sid & typing & schema & Hid & Hreg & -> & ->)
       |(sid & w1 & fields & w2 & Hstart & Hf & -> & ->)].
  - exists sid, typing, schema. eauto.
  - exists sid, (user_type_of type_), (mkSchema fields sid).
    split; [done|]. split.
    { destruct self; cbn; apply lookup_insert_eq. }
    eapply has_schema_id_ext; [apply ext_with_registry|].
    eapply has_schema_id_ext; [by eapply fields_to_runner_api_ext|].
    destruct Hstart as [(Hnone & w0 & Hgen & Hset)|(Hid & _ & ->)]; [|eauto].
    apply generate_new_id_Return in Hgen as (k & _ & _ & _ & ->).
    unfold set_schema_id in Hset. unfold has_schema_id.
    destruct (_identity type_) as [c|own] eqn:Hi.
    + injection Hset as <-. cbn. destruct (Hcls c eq_refl) as [cls Hc].
      exists (carry_schema_id sid cls). split; [|done].
      rewrite list_lookup_alter. destruct (decide (c = c)); [|congruence].
      by rewrite Hc.
    + destruct (Hown _ eq_refl) as [r ->]. injection Hset as <-. cbn.
      exists r, (mkRowTypeConstraint (_fields type_) (AdHoc (Some sid))).
      split; [done|]. split; [|done].
      apply list_lookup_insert_eq. eapply lookup_lt_Some. by apply Hat.
Qed.

Lemma is_composite_constraint type_ w :
  is_composite type_ w = true ->
  exists rtc at_,
    constraint_of type_ w = Some (rtc, at_) /\
    (forall r, at_ = Some r -> constraints w !! r = Some rtc) /\
    (forall c, _identity rtc = OfUserType c -> is_Some (classes w !! c)) /\
    (forall own, _identity rtc = AdHoc own -> is_Some at_).
Proof.
  unfold is_composite.
  destruct (constraint_of type_ w) as [[rtc at_]|] eqn:Hc; [|discriminate].
  intros H. exists rtc, at_. split; [done|]. split; [|split].
  - intros r ->. by apply constraint_of_at in Hc as [_ ?].
  - intros c Hi. rewrite Hi in H. by apply bool_decide_eq_true in H.
  - intros own Hi. destruct at_ as [r|]; [done|].
    apply constraint_of_class in Hc as (c & cls & _ & _ & ->). discriminate.
Qed.

(** In a later world the type is the same composite, with the id it had. *)
Lemma constraint_of_later type_ rtc at_ sid w w' :
  constraint_of type_ w = Some (rtc, at_) ->
  ext w w' ->
  has_schema_id rtc at_ sid w' ->
  exists rtc', constraint_of type_ w' = Some (rtc', at_) /\
               schema_id_of rtc' w' = Some sid.
Proof.
  intros Hc Hext Hhas. destruct at_ as [r|].
  - apply constraint_of_at in Hc as [-> Hr].
    destruct (ext_constraints _ _ Hext _ _ Hr) as (rtc' & Hr' & _ & Hu & _).
    exists rtc'. split.
    { unfold constraint_of. cbn. by rewrite Hr'. }
    unfold has_schema_id in Hhas. unfold schema_id_of.
    unfold user_type_of in Hu.
    destruct (_identity rtc) as [c|own], (_identity rtc') as [c'|own'] eqn:Hi';
      try discriminate.
    + injection Hu as ->. destruct Hhas as (cls & -> & Hid). done.
    + destruct Hhas as (r0 & rtc0 & [= <-] & Hr0 & _ & Hi0).
      rewrite Hr0 in Hr'. injection Hr' as ->. congruence.
  - apply constraint_of_class in Hc as (c & cls & -> & Hcls & ->).
    destruct Hhas as (cls' & Hcls' & Hid). cbn [_identity] in *.
    exists (mkRowTypeConstraint (cls_fields cls') (OfUserType c)). split.
    + unfold constraint_of. cbn. by rewrite Hcls'.
    + unfold schema_id_of. cbn. by rewrite Hcls'.
Qed.

(** ** Schema ids of composite types *)

(** C3. When the encoding of a composite native type returns, the answer is
    a Row descriptor, and encoding the type again, against the same registry
    and at any depth, returns the very same descriptor (same schema id, same
    fields in the same order) and leaves the world as it is: no id is
    generated and no Schema is added the second time. *)
Theorem schema_id_is_stable :
  forall fuel self type_ w d w',
    is_composite type_ w = true ->
    typing_to_runner_api fuel self type_ w = Return d w' ->
    exists schema,
      d = RowFieldType schema /\
      forall fuel2,
        typing_to_runner_api (S fuel2) self type_ w' = Return d w'.
Proof.
  intros fuel self type_ w d w' Hcomp H.
  destruct fuel as [|fuel]; [discriminate|].
  apply is_composite_constraint in Hcomp as (rtc & at_ & Hc & Hat & Hcls & Hown).
  rewrite (encode_composite _ _ _ _ _ _ Hc) in H.
  assert (Hext : ext w w').
  { eapply row_constraint_ext; [|exact Hat|exact H].
    intros t. apply typing_to_runner_api_ext. }
  apply row_constraint_registered in H
    as (sid & typing & schema & -> & Hreg & Hhas);
    [|intros t; apply typing_to_runner_api_ext|done..].
  exists schema. split; [done|]. intros fuel2.
  destruct (constraint_of_later _ _ _ _ _ _ Hc Hext Hhas) as (rtc' & Hc' & Hid').
  rewrite (encode_composite _ _ _ _ _ _ Hc').
  by eapply row_constraint_found.
Qed.

Lemma schema_id_is_stable_witness :
  exists d w' schema,
    typing_to_runner_api 2 DefaultRegistry (TNamedTuple 0) (imported (fun _ => "id"))
    = Return d w' /\
    d = RowFieldType schema /\
    forall fuel2,
      typing_to_runner_api (S fuel2) DefaultRegistry (TNamedTuple 0) w'
      = Return d w'.
Proof.
  eexists _, _.
  assert (H : typing_to_runner_api 2 DefaultRegistry (TNamedTuple 0)
                (imported (fun _ => "id")) = Return _ _)
    by (vm_compute; reflexivity).
  destruct (schema_id_is_stable 2 DefaultRegistry (TNamedTuple 0)
              (imported (fun _ => "id")) _ _ eq_refl H) as (schema & Hd & Hagain).
  exists schema. split; [exact H|]. split; [exact Hd|exact Hagain].
Defined.

(** ** The order of the steps for a composite type *)

Lemma Node_never_returns fuel w d w' :
  Node_unregistered w ->
  typing_to_runner_api fuel DefaultRegistry (TNamedTuple 0) w <> Return d w'.
Proof.
  revert w d w'. induction fuel as [|fuel IH]; intros w d w' Hnode H;
    [discriminate|].
  destruct Hnode as (cls & Hcls & Hfields & Hunreg).
  assert (Hc : constraint_of (TNamedTuple 0) w
               = Some (mkRowTypeConstraint (cls_fields cls) (OfUserType 0), None)).
  { unfold constraint_of. cbn. by rewrite Hcls. }
  rewrite (encode_composite _ _ _ _ _ _ Hc) in H.
  apply row_constraint_Return in H
    as [(sid & typing & schema & Hid & Hreg & _ & _)
       |(sid & w1 & fields & w2 & Hstart & Hf & _ & _)].
  - unfold schema_id_of in Hid. cbn in Hid. rewrite Hcls in Hid. cbn in Hid.
    apply Hunreg in Hid. cbn in Hreg. congruence.
  - assert (Hnode1 : Node_unregistered w1).
    { destruct Hstart as [(Hnone & w0 & Hgen & Hset)|(Hid & Hreg & ->)].
      - apply generate_new_id_Return in Hgen as (k & _ & _ & Hfresh & ->).
        injection Hset as <-. exists (carry_schema_id sid cls). cbn.
        rewrite list_lookup_alter. destruct (decide (0 = 0)); [|congruence].
        rewrite Hcls. split; [done|]. split; [done|]. by intros ? [= <-].
      - exists cls. split; [done|]. split; [done|]. intros sid' Hid'.
        unfold schema_id_of in Hid. cbn in Hid. rewrite Hcls in Hid.
        cbn in Hid, Hreg. congruence. }
    cbn [_fields] in Hf. rewrite Hfields in Hf.
    unfold fields_to_runner_api in Hf. cbn [Node_class cls_fields for_each] in Hf.
    apply bind_Return in Hf as (f1 & w3 & H1 & Hf).
    apply bind_Return in H1 as (d1 & w3' & H1 & [= _ <-]).
    destruct fuel as [|fuel]; [discriminate|].
    rewrite (encode_primitive _ _ _ INT64) in H1 by done. injection H1 as _ <-.
    apply bind_Return in Hf as (fs & w4 & Hf & _).
    apply bind_Return in Hf as (f2 & w5 & H2 & _).
    apply bind_Return in H2 as (d2 & w6 & H2 & _).
    rewrite encode_TOptional in H2.
    apply bind_Return in H2 as (d3 & w7 & H2 & _).
    apply typing_to_runner_api_S in H2. by eapply IH.
Qed.

(** C2, as stated, fails: the Schema is added to the registry after the
    fields are translated, so the translation of a field that is the type
    itself finds no Schema under the id and starts over.  Encoding [Node]
    returns at no depth. *)
Lemma self_referential_composite_never_returns :
  ~ (exists fuel d w',
       typing_to_runner_api fuel DefaultRegistry (TNamedTuple 0) world_of_Node
       = Return d w').
Proof.
  intros (fuel & d & w' & H). revert H. apply Node_never_returns.
  exists Node_class. done.
Qed.

(** C2, amended.  When the encoding of a composite type returns, either the
    Schema was in the registry under the id of the type and is the answer, or
    the steps were these, in this order: the id of the type was resolved, or
    generated and attached to the type, without any registry being changed
    ([w1]; when the default registry is the one in use, or when the type had
    its id already, that registry has nothing under the id then); the fields
    were translated, in order, from [w1] to [w2]; the Schema made of these
    fields and of the id was added to the registry, and is the answer. *)
Theorem id_before_fields_schema_after :
  forall fuel self type_ rtc at_ w d w',
    is_composite type_ w = true ->
    constraint_of type_ w = Some (rtc, at_) ->
    typing_to_runner_api (S fuel) self type_ w = Return d w' ->
    (exists sid typing schema,
        schema_id_of rtc w = Some sid /\
        registry_of self w !! sid = Some (typing, schema) /\
        d = RowFieldType schema /\ w' = w)
    \/
    (exists sid w1 fields w2,
        has_schema_id rtc at_ sid w1 /\
        SCHEMA_REGISTRY w1 = SCHEMA_REGISTRY w /\
        private_registry w1 = private_registry w /\
        (self = DefaultRegistry \/ is_Some (schema_id_of rtc w) ->
         registry_of self w1 !! sid = None) /\
        fields_to_runner_api (typing_to_runner_api fuel self) (_fields rtc) w1
        = Return fields w2 /\
        map field_name fields = map fst (_fields rtc) /\
        w' = with_registry self
               (<[sid := (user_type_of rtc, mkSchema fields sid)]>
                  (registry_of self w2)) w2 /\
        d = RowFieldType (mkSchema fields sid)).
Proof.
  intros fuel self type_ rtc at_ w d w' Hcomp Hc H.
  apply is_composite_constraint in Hcomp
    as (rtc0 & at0 & Hc0 & Hat & Hcls & Hown).
  rewrite Hc in Hc0. injection Hc0 as <- <-.
  rewrite (encode_composite _ _ _ _ _ _ Hc) in H.
  apply row_constraint_Return in H
    as [(sid & typing & schema & Hid & Hreg & -> & ->)
       |(sid & w1 & fields & w2 & Hstart & Hf & -> & ->)].
  - left. by exists sid, typing, schema.
  - right. exists sid, w1, fields, w2.
    assert (Hhas : forall sid, schema_id_of rtc w = Some sid ->
                               has_schema_id rtc at_ sid w).
    { intros sid0. unfold schema_id_of, has_schema_id.
      destruct (_identity rtc) as [c|own] eqn:Hi.
      - destruct (classes w !! c) as [cls|]; cbn; [|discriminate]. eauto.
      - intros ->. destruct (Hown _ eq_refl) as [r ->].
        exists r, rtc. by rewrite (Hat r eq_refl). }
    destruct Hstart as [(Hnone & w0 & Hgen & Hset)|(Hid & Hreg & ->)].
    + apply generate_new_id_Return in Hgen as (k & _ & _ & Hfresh & ->).
      assert (Hregs : SCHEMA_REGISTRY w1 = SCHEMA_REGISTRY w /\
                      private_registry w1 = private_registry w /\
                      has_schema_id rtc at_ sid w1).
      { unfold set_schema_id in Hset. unfold has_schema_id.
        destruct (_identity rtc) as [c|own] eqn:Hi.
        - injection Hset as <-. split; [done|]. split; [done|].
          destruct (Hcls c eq_refl) as [cls Hcl].
          exists (carry_schema_id sid cls). split; [|done]. cbn.
          rewrite list_lookup_alter. destruct (decide (c = c)); [|congruence].
          by rewrite Hcl.
        - destruct (Hown _ eq_refl) as [r ->]. injection Hset as <-.
          split; [done|]. split; [done|].
          exists r, (mkRowTypeConstraint (_fields rtc) (AdHoc (Some sid))).
          split; [done|]. split; [|done]. cbn.
          apply list_lookup_insert_eq. eapply lookup_lt_Some. by apply Hat. }
      destruct Hregs as (Hr1 & Hr2 & Hh).
      split; [done|]. split; [done|]. split; [done|]. split.
      { intros [->|[x Hx]]; [|congruence]. cbn. by rewrite Hr1. }
      split; [done|]. split; [by eapply fields_to_runner_api_names|]. done.
    + split; [by apply Hhas|]. split; [done|]. split; [done|].
      split; [done|]. split; [done|].
      split; [by eapply fields_to_runner_api_names|]. done.
Qed.

Lemma id_before_fields_schema_after_witness :
  let rtc := mkRowTypeConstraint
               (cls_fields MicrosInstantRepresentation_class) (OfUserType 0) in
  let w := imported (fun _ => "id") in
  exists d w',
    typing_to_runner_api 2 DefaultRegistry (TNamedTuple 0) w = Return d w' /\
    ((exists sid typing schema,
        schema_id_of rtc w = Some sid /\
        registry_of DefaultRegistry w !! sid = Some (typing, schema) /\
        d = RowFieldType schema /\ w' = w)
     \/
     (exists sid w1 fields w2,
        has_schema_id rtc None sid w1 /\
        SCHEMA_REGISTRY w1 = SCHEMA_REGISTRY w /\
        private_registry w1 = private_registry w /\
        (DefaultRegistry = DefaultRegistry \/ is_Some (schema_id_of rtc w) ->
         registry_of DefaultRegistry w1 !! sid = None) /\
        fields_to_runner_api (typing_to_runner_api 1 DefaultRegistry)
          (_fields rtc) w1 = Return fields w2 /\
        map field_name fields = map fst (_fields rtc) /\
        w' = with_registry DefaultRegistry
               (<[sid := (user_type_of rtc, mkSchema fields sid)]>
                  (registry_of DefaultRegistry w2)) w2 /\
        d = RowFieldType (mkSchema fields sid))).
Proof.
  intros rtc w. eexists _, _.
  assert (H : typing_to_runner_api 2 DefaultRegistry (TNamedTuple 0) w
              = Return _ _) by (vm_compute; reflexivity).
  split; [exact H|].
  exact (id_before_fields_schema_after 1 DefaultRegistry (TNamedTuple 0) rtc None
           w _ _ eq_refl eq_refl H).
Defined.

(** ** Schemas of ad hoc field lists *)

Lemma named_fields_to_schema_Return fuel names_and_types w schema w' :
  named_fields_to_schema fuel names_and_types w = Return schema w' ->
  map field_name (schema_fields schema) = map fst names_and_types /\
  SCHEMA_REGISTRY w' !! schema_id schema = None /\
  uuid4 w' = uuid4 w /\
  exists k, uuid4_calls w <= k /\ uuid4_calls w' = S k /\
            schema_id schema = uuid4 w k.
Proof.
  unfold named_fields_to_schema.
  intros (fields & w2 & Hf & (sid & w3 & Hgen & [= <- <-])%bind_Return)%bind_Return.
  apply generate_new_id_Return in Hgen as (k & Hk & -> & Hfresh & ->).
  assert (Hext : ext w w2).
  { eapply fields_to_runner_api_ext; [|exact Hf].
    intros t. apply typing_to_runner_api_ext. }
  destruct Hext as [_ _ Hu Hn]. cbn.
  split; [by eapply fields_to_runner_api_names|]. split; [done|].
  split; [done|]. exists k. rewrite Hu. split; [lia|done].
Qed.

(** C10, as stated, fails: the registry gives two calls no protection from
    each other, the Schema of the first not being added, so the ids differ
    only when the source of uuids gives two values; on a source that gives
    one value only, two calls on the same list of fields return the same
    id. *)
Lemma named_fields_ids_repeat_with_the_source :
  let fields := [mkField "a" (mkFieldType false (atomic_type INT64))] in
  named_fields_to_schema 1 [("a", TClass py_int)] constant_uuids
  = Return (mkSchema fields "same") (with_uuid4_calls 1 constant_uuids) /\
  named_fields_to_schema 1 [("a", TClass py_int)]
    (with_uuid4_calls 1 constant_uuids)
  = Return (mkSchema fields "same") (with_uuid4_calls 2 constant_uuids).
Proof. split; by vm_compute. Qed.

(** C10, amended.  When [named_fields_to_schema] returns a Schema, its fields have the
    names given, in order, and its id is a value that this call has drawn
    from the source of uuids and that is not an id of the default registry
    when the call ends: it was not one when it was generated, and the Schema
    has not been added.  A later call, on the same list of fields or on any
    other, draws its id further in the source; so when the source never
    gives the same value twice, the two ids differ. *)
Theorem named_fields_schema_id_is_fresh :
  forall fuel names_and_types w schema w',
    named_fields_to_schema fuel names_and_types w = Return schema w' ->
    map field_name (schema_fields schema) = map fst names_and_types /\
    SCHEMA_REGISTRY w' !! schema_id schema = None /\
    (exists k, uuid4_calls w <= k < uuid4_calls w' /\
               schema_id schema = uuid4 w k) /\
    forall fuel2 names_and_types2 schema2 w'',
      named_fields_to_schema fuel2 names_and_types2 w' = Return schema2 w'' ->
      SCHEMA_REGISTRY w'' !! schema_id schema2 = None /\
      (exists k2, uuid4_calls w' <= k2 < uuid4_calls w'' /\
                  schema_id schema2 = uuid4 w k2) /\
      ((forall i j, uuid4 w i = uuid4 w j -> i = j) ->
       schema_id schema2 <> schema_id schema).
Proof.
  intros fuel names_and_types w schema w' H.
  apply named_fields_to_schema_Return in H
    as (Hnames & Hfresh & Hu & k & Hk & Hcalls & Hid).
  split; [done|]. split; [done|]. split; [exists k; split; [lia|done]|].
  intros fuel2 names_and_types2 schema2 w'' H2.
  apply named_fields_to_schema_Return in H2
    as (_ & Hfresh2 & _ & k2 & Hk2 & Hcalls2 & Hid2).
  rewrite Hu in Hid2.
  split; [done|]. split; [exists k2; split; [lia|done]|].
  intros Hinj Heq. rewrite Hid, Hid2 in Heq. apply Hinj in Heq. lia.
Qed.

Lemma named_fields_schema_id_is_fresh_witness :
  let w := imported counting_uuids in
  let fields := [mkField "a" (mkFieldType false (atomic_type INT64))] in
  named_fields_to_schema 1 [("a", TClass py_int)] w
  = Return (mkSchema fields "0") (with_uuid4_calls 1 w) /\
  named_fields_to_schema 1 [("a", TClass py_int)] (with_uuid4_calls 1 w)
  = Return (mkSchema fields "1") (with_uuid4_calls 2 w) /\
  SCHEMA_REGISTRY (with_uuid4_calls 1 w) !! "0" = None /\
  "1" <> "0".
Proof.
  intros w fields.
  assert (H1 : named_fields_to_schema 1 [("a", TClass py_int)] w
               = Return (mkSchema fields "0") (with_uuid4_calls 1 w))
    by (vm_compute; reflexivity).
  assert (H2 : named_fields_to_schema 1 [("a", TClass py_int)] (with_uuid4_calls 1 w)
               = Return (mkSchema fields "1") (with_uuid4_calls 2 w))
    by (vm_compute; reflexivity).
  destruct (named_fields_schema_id_is_fresh 1 [("a", TClass py_int)] w _ _ H1)
    as (_ & Hfresh & _ & Hlater).
  destruct (Hlater 1 [("a", TClass py_int)] _ _ H2) as (_ & _ & Hne).
  split; [exact H1|]. split; [exact H2|]. split; [exact Hfresh|].
  apply Hne. intros i j. apply pretty_nat_inj.
Defined.

(** ** Decoding Row descriptors *)

Lemma decode_row_known rec self schema sch c cls w :
  registry_of self w !! schema_id schema = Some (Some c, sch) ->
  classes w !! c = Some cls ->
  typing_from_runner_api_body rec self (RowFieldType schema) w
  = Return (TRowConstraint (length (constraints w)))
      (with_constraints
         (constraints w ++ [mkRowTypeConstraint (cls_fields cls) (OfUserType c)]) w).
Proof.
  intros Hreg Hcls. unfold typing_from_runner_api_body. cbn [RowFieldType nullable type_info].
  unfold get_typing_by_id, bind, get_world. rewrite Hreg.
  cbn [fst ret from_user_type]. rewrite Hcls. reflexivity.
Qed.

Lemma NamedTuple_Return typename fields w c w' :
  NamedTuple typename fields w = Return c w' ->
  namedtuple_error (unicode_identifier w) typename (map fst fields) = None /\
  c = length (classes w) /\
  w' = with_classes (classes w ++ [mkNamedTupleClass typename fields None]) w.
Proof.
  unfold NamedTuple, bind, get_world, modify, ret.
  destruct (namedtuple_error _ _ _); [discriminate|]. by intros [= <- <-].
Qed.

Lemma NamedTuple_accepted typename fields w :
  namedtuple_error (unicode_identifier w) typename (map fst fields) = None ->
  NamedTuple typename fields w
  = Return (length (classes w))
      (with_classes (classes w ++ [mkNamedTupleClass typename fields None]) w).
Proof. unfold NamedTuple, bind, get_world, modify, ret. by intros ->. Qed.

Lemma NamedTuple_refused typename fields w e :
  namedtuple_error (unicode_identifier w) typename (map fst fields) = Some e ->
  NamedTuple typename fields w = Raise (ValueError e).
Proof. unfold NamedTuple, bind, get_world, raise. by intros ->. Qed.

(** What follows the making of the class in the row branch. *)
Lemma decode_row_registers self schema subfields w1 :
  (let user_type := length (classes w1) in
   add self (Some user_type) schema ;;;
   register_coder user_type ;;;
   let* w := get_world in
   match from_user_type (TNamedTuple user_type) w with
   | Some result =>
       let* r := new_row_constraint result in
       set_schema_id result (Some r) (schema_id schema) ;;;
       ret (TRowConstraint r)
   | None => raise AttributeError
   end)
    (with_classes
       (classes w1 ++
        [mkNamedTupleClass
           ("BeamSchema_" ++ replace "-"%char "_"%char (schema_id schema))
           subfields None]) w1)
  = Return (TRowConstraint (length (constraints w1)))
      (synthesized self schema subfields w1).
Proof.
  cbv zeta. unfold add, register_coder, bind, get_world, modify, ret.
  unfold synthesized.
  destruct self; cbn;
    rewrite list_lookup_middle by done;
    unfold new_row_constraint, set_schema_id, bind, get_world, modify, ret;
    cbn; reflexivity.
Qed.

Lemma decode_row_unknown rec self schema w t w' :
  get_typing_by_id self (schema_id schema) w = Return None w ->
  typing_from_runner_api_body rec self (RowFieldType schema) w = Return t w' ->
  exists subfields w1,
    fields_from_runner_api rec (schema_fields schema) w = Return subfields w1 /\
    t = TRowConstraint (length (constraints w1)) /\
    w' = synthesized self schema subfields w1.
Proof.
  intros Hreg. unfold typing_from_runner_api_body.
  cbn [RowFieldType nullable type_info].
  intros (u & w0 & Hu & H)%bind_Return. rewrite Hreg in Hu. injection Hu as <- <-.
  apply bind_Return in H as (subfields & w1 & Hf & H).
  exists subfields, w1. split; [exact Hf|].
  apply bind_Return in H as (c & w2 & (_ & -> & ->)%NamedTuple_Return & H).
  rewrite decode_row_registers in H. by injection H as <- <-.
Qed.

(** The row branch on an id that the registry does not have, once the
    fields are decoded: the class is made when [NamedTuple] accepts the
    names, and its ValueError comes out otherwise. *)
Lemma decode_row_synthesizes rec self schema w subfields w1 :
  registry_of self w !! schema_id schema = None ->
  fields_from_runner_api rec (schema_fields schema) w = Return subfields w1 ->
  typing_from_runner_api_body rec self (RowFieldType schema) w
  = match namedtuple_error (unicode_identifier w1) (synthesized_name schema)
            (map fst subfields) with
    | None =>
        Return (TRowConstraint (length (constraints w1)))
          (synthesized self schema subfields w1)
    | Some e => Raise (ValueError e)
    end.
Proof.
  intros Hnone Hf. unfold typing_from_runner_api_body.
  cbn [RowFieldType nullable type_info].
  assert (Hu : get_typing_by_id self (schema_id schema) w = Return None w).
  { unfold get_typing_by_id, bind, get_world. by rewrite Hnone. }
  rewrite (bind_step _ _ _ _ _ Hu). rewrite (bind_step _ _ _ _ _ Hf).
  unfold synthesized_name.
  destruct (namedtuple_error _ _ _) as [e|] eqn:He.
  - apply bind_Raise. by apply NamedTuple_refused.
  - rewrite (bind_step _ _ _ _ _ (NamedTuple_accepted _ _ _ He)).
    apply decode_row_registers.
Qed.

Lemma fields_from_runner_api_names rec fields w subfields w' :
  fields_from_runner_api rec fields w = Return subfields w' ->
  map fst subfields = map field_name fields.
Proof.
  unfold fields_from_runner_api. revert w subfields w'.
  induction fields as [|f fields IH]; intros w subfields w'; cbn [for_each].
  - by intros [= <- _].
  - intros (x & w1 & H1 & (xs & w2 & H2 & [= <- _])%bind_Return)%bind_Return.
    apply bind_Return in H1 as (t & w0 & _ & [= <- _]).
    cbn. f_equal. by eapply IH.
Qed.

Lemma unwrap_row_constraint_Return t w t' w' :
  unwrap_row_constraint t w = Return t' w' -> w' = w.
Proof.
  unfold unwrap_row_constraint, bind, get_world, ret.
  repeat case_match; by intros [= _ <-].
Qed.

Lemma fields_from_runner_api_ext rec fields :
  (forall t, returns_ext (rec t)) ->
  returns_ext (fields_from_runner_api rec fields).
Proof.
  intros Hrec. apply for_each_ext. intros f w x w' H.
  apply bind_Return in H as (t & w1 & H & [= _ <-]).
  unfold try_except_ValueError in H.
  destruct (bind _ _ w) as [t0 w0|[]] eqn:Hb; try discriminate.
  injection H as <- <-.
  apply bind_Return in Hb as (t1 & w2 & Hb & ->%unwrap_row_constraint_Return).
  by eapply Hrec.
Qed.

Lemma synthesized_ext self schema subfields w :
  ext w (synthesized self schema subfields w).
Proof.
  unfold synthesized. destruct self; (split; cbn; eauto).
  all: intros i x H; pose proof (lookup_lt_Some _ _ _ H) as Hlt.
  all: try (rewrite list_lookup_alter_ne by lia).
  all: rewrite lookup_app_l by done; eauto.
Qed.

Lemma get_typing_by_id_Return self unique_id w u w' :
  get_typing_by_id self unique_id w = Return u w' ->
  w' = w /\
  u = match registry_of self w !! unique_id with
      | Some result => fst result
      | None => None
      end.
Proof.
  unfold get_typing_by_id, bind, get_world, ret.
  destruct (registry_of self w !! unique_id); by intros [= <- <-].
Qed.

Lemma typing_from_runner_api_body_ext rec self fieldtype_proto :
  (forall t, returns_ext (rec t)) ->
  returns_ext (typing_from_runner_api_body rec self fieldtype_proto).
Proof.
  intros Hrec w t w' H.
  destruct fieldtype_proto as [[] ti].
  { unfold typing_from_runner_api_body in H. cbn [nullable] in H.
    apply bind_Return in H as (base & w1 & H1 & H).
    assert (w' = w1) as -> by (destruct base; by injection H as _ <-).
    by eapply Hrec. }
  destruct ti as [|a|e|k v|schema|urn_ rep].
  - discriminate.
  - unfold typing_from_runner_api_body in H. cbn [nullable type_info] in H.
    destruct (dict_get a ATOMIC_TYPE_TO_PRIMITIVE); [|discriminate].
    injection H as _ <-. apply ext_refl.
  - apply bind_Return in H as (x & w1 & H1 & [= _ <-]). by eapply Hrec.
  - apply bind_Return in H as (x & w1 & H1 & (y & w2 & H2 & [= _ <-])%bind_Return).
    eapply ext_trans; by eapply Hrec.
  - change (mkFieldType false (row_type schema)) with (RowFieldType schema) in H.
    destruct (get_typing_by_id self (schema_id schema) w) as [u w0|] eqn:Hu.
    2:{ unfold typing_from_runner_api_body in H.
        cbn [RowFieldType nullable type_info] in H.
        by rewrite (bind_Raise _ _ _ _ Hu) in H. }
    pose proof Hu as [-> _]%get_typing_by_id_Return.
    destruct u as [c|].
    + unfold typing_from_runner_api_body in H.
      cbn [RowFieldType nullable type_info] in H.
      apply bind_Return in H as (u' & w0' & Hu' & H).
      rewrite Hu in Hu'. injection Hu' as <- <-.
      unfold bind, get_world, new_row_constraint, modify, ret in H.
      destruct (from_user_type (TNamedTuple c) w); injection H as _ <-;
        [apply ext_new_constraint|apply ext_refl].
    + apply decode_row_unknown in H as (subfields & w1 & Hf & _ & ->); [|done].
      eapply ext_trans; [by eapply fields_from_runner_api_ext|].
      apply synthesized_ext.
  - unfold typing_from_runner_api_body in H. cbn [nullable type_info] in H.
    destruct (decide (urn_ = PYTHON_ANY_URN)).
    + injection H as _ <-. apply ext_refl.
    + unfold from_runner_api, bind, get_world, ret in H.
      destruct (get_logical_type_by_urn _ _); [|discriminate].
      injection H as _ <-. apply ext_refl.
Qed.

Lemma typing_from_runner_api_ext fuel self fieldtype_proto :
  returns_ext (typing_from_runner_api fuel self fieldtype_proto).
Proof.
  revert fieldtype_proto. induction fuel as [|fuel IH]; intros fieldtype_proto.
  - by intros w d w'.
  - cbn [typing_from_runner_api]. by apply typing_from_runner_api_body_ext.
Qed.

Lemma ext_classes_length w w' : ext w w' -> length (classes w) <= length (classes w').
Proof.
  intros [C _ _ _].
  destruct (decide (length (classes w) <= length (classes w'))) as [|Hlt]; [done|].
  destruct (proj2 (lookup_lt_is_Some (classes w) (length (classes w'))))
    as [cls Hcls]; [lia|].
  destruct (C _ _ Hcls) as (cls' & H%lookup_lt_Some & _). lia.
Qed.

(** ** Examples *)

(** A mapping of strings to 64-bit integers, and back. *)
Example encode_mapping_str_int64 :
  typing_to_runner_api 2 DefaultRegistry
    (TMapping [TClass py_str; TClass np_int64]) (imported counting_uuids)
  = Return
      (mkFieldType false
         (map_type (mkFieldType false (atomic_type STRING))
                   (mkFieldType false (atomic_type INT64))))
      (imported counting_uuids).
Proof. reflexivity. Qed.

Example decode_mapping_str_int64 :
  typing_from_runner_api 2 DefaultRegistry
    (mkFieldType false
       (map_type (mkFieldType false (atomic_type STRING))
                 (mkFieldType false (atomic_type INT64))))
    (imported counting_uuids)
  = Return (TMapping [TClass py_str; TClass np_int64]) (imported counting_uuids).
Proof. reflexivity. Qed.

(** An optional boolean, and back. *)
Example encode_optional_bool :
  typing_to_runner_api 2 DefaultRegistry (Optional (TClass py_bool))
    (imported counting_uuids)
  = Return (mkFieldType true (atomic_type BOOLEAN)) (imported counting_uuids).
Proof. reflexivity. Qed.

Example decode_optional_bool :
  typing_from_runner_api 2 DefaultRegistry
    (mkFieldType true (atomic_type BOOLEAN)) (imported counting_uuids)
  = Return (Optional (TClass py_bool)) (imported counting_uuids).
Proof. reflexivity. Qed.

(** An atomic kind that the reverse table does not have. *)
Example decode_unsupported_atomic :
  typing_from_runner_api 1 DefaultRegistry
    (mkFieldType false (atomic_type UNSPECIFIED)) (imported counting_uuids)
  = Raise (ValueError (UnsupportedAtomicType UNSPECIFIED)).
Proof. reflexivity. Qed.

(** [Timestamp] is encoded through [MicrosInstant]: its representation, the
    NamedTuple [MicrosInstantRepresentation], gets the first id of the source
    and is registered. *)
Example encode_Timestamp :
  exists w',
    typing_to_runner_api 3 DefaultRegistry (TClass Timestamp)
      (imported counting_uuids)
    = Return
        (mkFieldType false
           (logical_type "beam:logical_type:micros_instant:v1"
              (Some (RowFieldType
                       (mkSchema
                          [mkField "seconds" (mkFieldType false (atomic_type INT64));
                           mkField "micros" (mkFieldType false (atomic_type INT64))]
                          "0")))))
        w' /\
    is_Some (SCHEMA_REGISTRY w' !! "0").
Proof. eexists. split; [vm_compute; reflexivity|]. vm_compute. eauto. Qed.

(** A sequence type without its type parameter, such as the bare class
    [list]: the element type is asked of an empty tuple. *)
Example encode_bare_sequence :
  typing_to_runner_api 1 DefaultRegistry (TSequence []) (imported counting_uuids)
  = Raise IndexError.
Proof. reflexivity. Qed.

(** * More of the module *)

(** ** The registry of schemas *)

(** X1. After [add(typing, schema)] both getters answer, for the id of the
    schema, what was added, whatever the registry had under that id before;
    the entries under any other id and the other registry are as they were. *)
Theorem add_then_get :
  forall self typing schema w,
    exists w',
      add self typing schema w = Return tt w' /\
      get_typing_by_id self (schema_id schema) w' = Return typing w' /\
      get_schema_by_id self (schema_id schema) w' = Return (Some schema) w' /\
      (forall i, i <> schema_id schema ->
         registry_of self w' !! i = registry_of self w !! i) /\
      registry_of (other_registry self) w'
      = registry_of (other_registry self) w.
Proof.
  intros self typing schema w.
  exists (with_registry self
            (<[schema_id schema := (typing, schema)]> (registry_of self w)) w).
  split; [reflexivity|].
  assert (Hself : forall m, registry_of self (with_registry self m w) = m)
    by (by destruct self).
  unfold get_typing_by_id, get_schema_by_id, bind, get_world.
  rewrite Hself, lookup_insert_eq. split; [done|]. split; [done|]. split.
  - intros i Hi. by rewrite lookup_insert_ne.
  - by destruct self.
Qed.

Lemma taken_after_draw self w k :
  taken self (with_uuid4_calls (S (uuid4_calls w)) w) k <-> taken self w (S k).
Proof.
  unfold taken.
  replace (uuid4_calls (with_uuid4_calls (S (uuid4_calls w)) w) + k)
    with (uuid4_calls w + S k) by (cbn; lia).
  by destruct self.
Qed.

Lemma generate_new_id_tries_first_free self tries w k :
  k < tries ->
  (forall j, j < k -> taken self w j) ->
  ~ taken self w k ->
  generate_new_id_tries self tries w
  = Return (uuid4 w (uuid4_calls w + k))
      (with_uuid4_calls (uuid4_calls w + k + 1) w).
Proof.
  revert w k. induction tries as [|tries IH]; intros w k Hk Hbefore Hfree;
    [lia|].
  cbn [generate_new_id_tries]. unfold bind, get_world, modify.
  destruct k as [|k].
  - unfold taken in Hfree. rewrite Nat.add_0_r in *.
    destruct (registry_of self w !! uuid4 w (uuid4_calls w)) as [x|] eqn:Hx.
    + destruct Hfree. by exists x.
    + unfold ret. f_equal. unfold with_uuid4_calls. f_equal. lia.
  - pose proof (Hbefore 0 ltac:(lia)) as [x Hx]. rewrite Nat.add_0_r in Hx.
    rewrite Hx.
    rewrite (IH _ k); [| lia | |].
    + cbn. f_equal; [f_equal; lia|]. unfold with_uuid4_calls. cbn. f_equal. lia.
    + intros j Hj. apply taken_after_draw, Hbefore. lia.
    + by rewrite taken_after_draw.
Qed.

Lemma generate_new_id_tries_all_taken self tries w :
  (forall j, j < tries -> taken self w j) ->
  generate_new_id_tries self tries w
  = Raise (AssertionError (size (registry_of self w))).
Proof.
  revert w. induction tries as [|tries IH]; intros w Htaken; [done|].
  cbn [generate_new_id_tries]. unfold bind, get_world, modify.
  pose proof (Htaken 0 ltac:(lia)) as [x Hx]. rewrite Nat.add_0_r in Hx.
  rewrite Hx. rewrite IH.
  - by destruct self.
  - intros j Hj. apply taken_after_draw, Htaken. lia.
Qed.

(** X2. [generate_new_id] answers the first of the next hundred values of
    the source that is not an id of the registry, and has then drawn the
    values up to that one; the registry is not changed. *)
Theorem generate_new_id_first_free :
  forall self w k,
    k < 100 ->
    (forall j, j < k -> taken self w j) ->
    ~ taken self w k ->
    generate_new_id self w
    = Return (uuid4 w (uuid4_calls w + k))
        (with_uuid4_calls (uuid4_calls w + k + 1) w).
Proof.
  intros self w k Hk Hbefore Hfree.
  by apply generate_new_id_tries_first_free.
Qed.

Lemma generate_new_id_first_free_witness :
  generate_new_id DefaultRegistry stuck_uuids_then_free
  = Return "free" (with_uuid4_calls 3 stuck_uuids_then_free).
Proof.
  apply (generate_new_id_first_free DefaultRegistry stuck_uuids_then_free 2).
  - lia.
  - intros j Hj. unfold taken.
    destruct j as [|[|j]]; [vm_compute; eauto..|lia].
  - unfold taken. vm_compute. by intros [x Hx].
Defined.

Lemma first_free_or_all_taken self w n :
  (forall j, j < n -> taken self w j) \/
  (exists k, k < n /\ (forall j, j < k -> taken self w j) /\ ~ taken self w k).
Proof.
  induction n as [|n [Hall|(k & Hk & Hbefore & Hfree)]].
  - left. lia.
  - destruct (decide (taken self w n)) as [Hn|Hn].
    + left. intros j Hj. destruct (decide (j = n)) as [->|]; [done|].
      apply Hall. lia.
    + right. exists n. split; [lia|]. by split.
  - right. exists k. split; [lia|]. by split.
Qed.

(** X3. [generate_new_id] raises exactly when the next hundred values of the
    source are all ids of the registry, neither earlier nor later, and what
    it raises is the AssertionError that tells the size of the registry. *)
Theorem generate_new_id_exhausted :
  forall self w,
    (generate_new_id self w = Raise (AssertionError (size (registry_of self w)))
     <-> forall j, j < 100 -> taken self w j) /\
    (forall e, generate_new_id self w = Raise e ->
               e = AssertionError (size (registry_of self w))).
Proof.
  intros self w. unfold generate_new_id.
  destruct (first_free_or_all_taken self w 100)
    as [Hall|(k & Hk & Hbefore & Hfree)].
  - rewrite (generate_new_id_tries_all_taken _ _ _ Hall).
    split; [done|]. by intros e [= <-].
  - rewrite (generate_new_id_tries_first_free _ _ _ _ Hk Hbefore Hfree).
    split; [|done]. split; [done|]. intros Hall. destruct Hfree. by apply Hall.
Qed.

Lemma generate_new_id_exhausted_witness :
  generate_new_id DefaultRegistry stuck_uuids = Raise (AssertionError 1).
Proof.
  apply (proj2 (proj1 (generate_new_id_exhausted DefaultRegistry stuck_uuids))).
  intros j _. unfold taken. vm_compute. eauto.
Defined.

(** ** The registry of logical types *)

Lemma dict_get_set_eq {K V} `{EqDecision K} (k : K) (v : V) d :
  dict_get k (dict_set k v d) = Some v.
Proof.
  induction d as [|[k' v'] d IH]; cbn.
  - by rewrite decide_True.
  - destruct (decide (k = k')) as [->|Hne]; cbn.
    + by rewrite decide_True.
    + by rewrite decide_False.
Qed.

Lemma dict_get_set_ne {K V} `{EqDecision K} (k k0 : K) (v : V) d :
  k0 <> k -> dict_get k0 (dict_set k v d) = dict_get k0 d.
Proof.
  intros Hne. induction d as [|[k' v'] d IH]; cbn.
  - by rewrite decide_False.
  - destruct (decide (k = k')) as [->|Hne']; cbn.
    + by rewrite !decide_False.
    + destruct (decide (k0 = k')); [done|]. exact IH.
Qed.

(** X4. Once a logical type is registered, it is the one found under its urn
    and the one found for its language type, and so [from_runner_api] and
    [from_typing] return it; what was registered under another urn or for
    another language type is found as before.  In particular a second
    logical type for the same language type takes the place of the first for
    [from_typing], while the first is still found by its urn. *)
Theorem registered_logical_type_is_found :
  forall logical_type_cls known,
    let known' := register_logical_type logical_type_cls known in
    get_logical_type_by_urn known' (urn logical_type_cls) = Some logical_type_cls /\
    get_logical_type_by_language_type known'
      (TClass (language_type logical_type_cls)) = Some logical_type_cls /\
    (forall urn_, urn_ <> urn logical_type_cls ->
       get_logical_type_by_urn known' urn_ = get_logical_type_by_urn known urn_) /\
    (forall c, c <> language_type logical_type_cls ->
       get_logical_type_by_language_type known' (TClass c)
       = get_logical_type_by_language_type known (TClass c)) /\
    (forall w, _known_logical_types w = known' ->
       from_runner_api (urn logical_type_cls) w = Return logical_type_cls w /\
       from_typing (TClass (language_type logical_type_cls)) w
       = Return logical_type_cls w).
Proof.
  intros lt known known'.
  assert (H1 : get_logical_type_by_urn known' (urn lt) = Some lt)
    by apply lookup_insert_eq.
  assert (H2 : get_logical_type_by_language_type known' (TClass (language_type lt))
               = Some lt) by apply dict_get_set_eq.
  split; [done|]. split; [done|]. split; [|split].
  - intros urn_ Hne. unfold get_logical_type_by_urn. cbn.
    by rewrite lookup_insert_ne.
  - intros c Hne. cbn. by apply dict_get_set_ne.
  - intros w Hw. unfold from_runner_api, from_typing, bind, get_world.
    by rewrite Hw, H1, H2.
Qed.

(** ** The instant logical type, further *)

(** X5. The representation of a Timestamp, of any sign, has its micros in
    [0, 1000000) and is the one pair in that range whose seconds and micros
    make up the offset. *)
Theorem MicrosInstant_representation_is_normal :
  forall v : utils_timestamp.Timestamp,
    let r := MicrosInstant.to_representation_type v in
    (0 <= MicrosInstant.micros r < 1000000)%Z /\
    (MicrosInstant.seconds r * 1000000 + MicrosInstant.micros r
     = utils_timestamp.micros v)%Z /\
    forall s m,
      (0 <= m < 1000000)%Z ->
      (s * 1000000 + m = utils_timestamp.micros v)%Z ->
      r = MicrosInstant.mkRepresentation s m.
Proof.
  intros [t]. cbn.
  pose proof (Z.mod_pos_bound t 1000000 ltac:(lia)) as Hm.
  pose proof (Z.div_mod t 1000000 ltac:(lia)) as Hd.
  split; [lia|]. split; [lia|].
  intros s m Hrange Hsum. unfold MicrosInstant.to_representation_type. cbn.
  assert (t `div` 1000000 = s)%Z as ->.
  { symmetry. apply (Z.div_unique t 1000000 s m); lia. }
  f_equal. lia.
Qed.

(** X6. Going from a representation to the Timestamp and back gives the
    representation again exactly when its micros are in [0, 1000000);
    otherwise the micros are carried over into the seconds. *)
Theorem MicrosInstant_representation_round_trip :
  forall r : MicrosInstant.MicrosInstantRepresentation,
    MicrosInstant.to_representation_type (MicrosInstant.to_language_type r) = r
    <-> (0 <= MicrosInstant.micros r < 1000000)%Z.
Proof.
  intros [s m]. unfold MicrosInstant.to_representation_type,
    MicrosInstant.to_language_type, utils_timestamp.make. cbn. split.
  - intros [= Hs Hm].
    pose proof (Z.mod_pos_bound (s * 1000000 + m) 1000000 ltac:(lia)). lia.
  - intros Hrange.
    assert ((s * 1000000 + m) `div` 1000000 = s)%Z as Hq.
    { symmetry. apply (Z.div_unique _ 1000000 s m); lia. }
    rewrite Hq. f_equal.
    pose proof (Z.div_mod (s * 1000000 + m) 1000000 ltac:(lia)). lia.
Qed.

(** ** Atomic kinds *)

(** X7. Every atomic kind but UNSPECIFIED is decoded to a scalar, which is
    encoded back to that kind; UNSPECIFIED is refused with the ValueError
    that names it.  No world is changed. *)
Theorem atomic_decode_then_encode :
  forall a fuel fuel' self w,
    (a = UNSPECIFIED /\
     typing_from_runner_api (S fuel) self (mkFieldType false (atomic_type a)) w
     = Raise (ValueError (UnsupportedAtomicType a)))
    \/
    (exists c,
       typing_from_runner_api (S fuel) self (mkFieldType false (atomic_type a)) w
       = Return (TClass c) w /\
       typing_to_runner_api (S fuel') self (TClass c) w
       = Return (mkFieldType false (atomic_type a)) w).
Proof.
  intros a fuel fuel' self w.
  destruct a; [left; by split|right..].
  1: exists np_int8. 2: exists np_int16. 3: exists np_int32. 4: exists np_int64.
  5: exists np_float32. 6: exists np_float64. 7: exists py_str.
  8: exists py_bool. 9: exists py_bytes.
  all: split; [by apply decode_atomic | by apply encode_primitive].
Qed.

(** ** Round trips of structural typings *)

Lemma encode_sequence_Return fuel self t rest w d w' :
  typing_to_runner_api fuel self t w = Return d w' ->
  typing_to_runner_api (S fuel) self (TSequence (t :: rest)) w
  = Return (mkFieldType false (array_type d)) w'.
Proof.
  intros H. cbn [typing_to_runner_api]. unfold typing_to_runner_api_body.
  unfold bind at 1. unfold get_world at 1. cbn.
  by rewrite (bind_step _ _ _ _ _ H).
Qed.

Lemma encode_mapping_Return fuel self k v w dk w1 dv w2 :
  typing_to_runner_api fuel self k w = Return dk w1 ->
  typing_to_runner_api fuel self v w1 = Return dv w2 ->
  typing_to_runner_api (S fuel) self (TMapping [k; v]) w
  = Return (mkFieldType false (map_type dk dv)) w2 /\
  typing_to_runner_api (S fuel) self (TMappingLike [k; v]) w
  = Return (mkFieldType false (map_type dk dv)) w2.
Proof.
  intros Hk Hv. cbn [typing_to_runner_api]. unfold typing_to_runner_api_body.
  unfold bind at 1 3. unfold get_world at 1 2. cbn.
  unfold bind. by rewrite Hk, Hv.
Qed.

Lemma decode_array_Return fuel self e w t w' :
  typing_from_runner_api fuel self e w = Return t w' ->
  typing_from_runner_api (S fuel) self (mkFieldType false (array_type e)) w
  = Return (TSequence [t]) w'.
Proof.
  intros H. cbn [typing_from_runner_api]. unfold typing_from_runner_api_body.
  cbn [nullable type_info]. by rewrite (bind_step _ _ _ _ _ H).
Qed.

Lemma decode_map_Return fuel self k v w tk w1 tv w2 :
  typing_from_runner_api fuel self k w = Return tk w1 ->
  typing_from_runner_api fuel self v w1 = Return tv w2 ->
  typing_from_runner_api (S fuel) self (mkFieldType false (map_type k v)) w
  = Return (TMapping [tk; tv]) w2.
Proof.
  intros Hk Hv. cbn [typing_from_runner_api]. unfold typing_from_runner_api_body.
  cbn [nullable type_info]. rewrite (bind_step _ _ _ _ _ Hk).
  by rewrite (bind_step _ _ _ _ _ Hv).
Qed.

Lemma decode_nullable_Return fuel self d w t w' :
  nullable d = false ->
  typing_from_runner_api fuel self d w = Return t w' ->
  typing_from_runner_api (S fuel) self (set_nullable true d) w
  = Return (match t with TAny => TAny | _ => Optional t end) w'.
Proof.
  destruct d as [n ti]. cbn [nullable]. intros -> H.
  cbn [typing_from_runner_api]. unfold typing_from_runner_api_body.
  cbn [nullable set_nullable type_info]. cbv zeta.
  rewrite (bind_step _ _ _ _ _ H). by destruct t.
Qed.

Lemma canonical_not_None t : canonical t -> t <> TNone.
Proof. by destruct 1. Qed.

Lemma canonical_round_trip_depth t :
  canonical t ->
  exists d,
    (nullable d = true -> t = TAny \/ exists u, t = TOptional u) /\
    forall fuel self w, depth t <= fuel ->
      typing_to_runner_api fuel self t w = Return d w /\
      typing_from_runner_api fuel self d w = Return t w.
Proof.
  induction 1 as [c a Hin| |t Ht (d & Hn & IH)
                 |k v Hk (dk & Hnk & IHk) Hv (dv & Hnv & IHv)
                 |t Ht (d & Hn & IH) Hany Hopt].
  - exists (mkFieldType false (atomic_type a)). split; [discriminate|].
    intros [|fuel] self w Hfuel; [cbn in Hfuel; lia|].
    unfold _PRIMITIVES in Hin. cbn in Hin.
    repeat (destruct Hin as [[= <- <-]|Hin];
            [split; [by apply encode_primitive|by apply decode_atomic]|]).
    done.
  - exists any_placeholder. split; [by left|].
    intros [|[|fuel]] self w Hfuel; [cbn in Hfuel; lia..|]. by split.
  - exists (mkFieldType false (array_type d)). split; [discriminate|].
    intros [|fuel] self w Hfuel; cbn in Hfuel; [lia|].
    destruct (IH fuel self w ltac:(lia)) as [He Hd]. split.
    + by apply encode_sequence_Return.
    + by apply decode_array_Return.
  - exists (mkFieldType false (map_type dk dv)).
    split; [discriminate|].
    intros [|fuel] self w Hfuel; cbn in Hfuel; [lia|].
    destruct (IHk fuel self w ltac:(lia)) as [Hek Hdk].
    destruct (IHv fuel self w ltac:(lia)) as [Hev Hdv]. split.
    + by apply (encode_mapping_Return fuel self k v w dk w dv w).
    + by apply (decode_map_Return fuel self dk dv w k w v w).
  - exists (set_nullable true d). split; [eauto|].
    intros [|fuel] self w Hfuel; cbn in Hfuel; [lia|].
    destruct (IH fuel self w ltac:(lia)) as [He Hd].
    assert (Hnull : nullable d = false).
    { destruct (nullable d) eqn:Hnd; [|done].
      destruct (Hn eq_refl) as [->|[u ->]]; [done|by destruct (Hopt u)]. }
    split.
    + rewrite encode_TOptional. by rewrite (bind_step _ _ _ _ _ He).
    + rewrite (decode_nullable_Return fuel self d w t w Hnull Hd).
      pose proof (canonical_not_None t Ht).
      destruct t; try done. by destruct (Hopt t).
Qed.

Lemma canonical_round_trip_strong t :
  canonical t ->
  exists d n,
    (nullable d = true -> t = TAny \/ exists u, t = TOptional u) /\
    forall fuel self w, n <= fuel ->
      typing_to_runner_api fuel self t w = Return d w /\
      typing_from_runner_api fuel self d w = Return t w.
Proof.
  intros (d & Hn & H)%canonical_round_trip_depth. by exists d, (depth t).
Qed.

(** X8. A typing made of the scalars of [_PRIMITIVES] and of [Any] with
    [Sequence], [Mapping] and [Optional] is decoded from its descriptor as
    itself, at any depth that is enough for it, against any registry; no
    world is changed. *)
Theorem canonical_types_round_trip :
  forall t,
    canonical t ->
    exists n,
      forall fuel self w, n <= fuel ->
        (let* d := typing_to_runner_api fuel self t in
         typing_from_runner_api fuel self d) w
        = Return t w.
Proof.
  intros t (d & n & _ & H)%canonical_round_trip_strong.
  exists n. intros fuel self w Hfuel.
  destruct (H fuel self w Hfuel) as [He Hd].
  by rewrite (bind_step _ _ _ _ _ He).
Qed.

Lemma canonical_types_round_trip_witness :
  exists n,
    forall fuel self w, n <= fuel ->
      (let* d := typing_to_runner_api fuel self
                   (TMapping [TClass py_str;
                              TOptional (TSequence [TClass np_int64])]) in
       typing_from_runner_api fuel self d) w
      = Return (TMapping [TClass py_str;
                          TOptional (TSequence [TClass np_int64])]) w.
Proof.
  apply canonical_types_round_trip.
  apply canonical_Mapping.
  - apply (canonical_scalar py_str STRING). cbn. tauto.
  - apply canonical_Optional; [|done|done].
    apply canonical_Sequence.
    apply (canonical_scalar np_int64 INT64). cbn. tauto.
Defined.

(** X9. Any other subclass of Mapping with two canonical parameters, such
    as [Dict[k, v]], is decoded from its descriptor as [Mapping[k, v]]; and a
    sequence typing keeps its first parameter only. *)
Theorem structural_types_decode_to_generics :
  forall k v rest,
    canonical k -> canonical v ->
    exists n,
      forall fuel self w, n <= fuel ->
        (let* d := typing_to_runner_api fuel self (TMappingLike [k; v]) in
         typing_from_runner_api fuel self d) w
        = Return (TMapping [k; v]) w /\
        (let* d := typing_to_runner_api fuel self (TSequence (k :: rest)) in
         typing_from_runner_api fuel self d) w
        = Return (TSequence [k]) w.
Proof.
  intros k v rest (dk & nk & _ & Hk)%canonical_round_trip_strong
    (dv & nv & _ & Hv)%canonical_round_trip_strong.
  exists (S (nk `max` nv)). intros [|fuel] self w Hfuel; [lia|].
  destruct (Hk fuel self w ltac:(lia)) as [Hek Hdk].
  destruct (Hv fuel self w ltac:(lia)) as [Hev Hdv].
  destruct (Hk (S fuel) self w ltac:(lia)) as [_ Hdk'].
  destruct (Hv (S fuel) self w ltac:(lia)) as [_ Hdv'].
  split.
  - rewrite (bind_step _ _ _ _ _
               (proj2 (encode_mapping_Return fuel self k v w dk w dv w Hek Hev))).
    by apply (decode_map_Return fuel self dk dv w k w v w).
  - rewrite (bind_step _ _ _ _ _
               (encode_sequence_Return fuel self k rest w dk w Hek)).
    by apply decode_array_Return.
Qed.

Lemma structural_types_decode_to_generics_witness :
  exists n,
    forall fuel self w, n <= fuel ->
      (let* d := typing_to_runner_api fuel self
                   (TMappingLike [TClass py_str; TAny]) in
       typing_from_runner_api fuel self d) w
      = Return (TMapping [TClass py_str; TAny]) w /\
      (let* d := typing_to_runner_api fuel self
                   (TSequence [TClass py_str; TClass py_int]) in
       typing_from_runner_api fuel self d) w
      = Return (TSequence [TClass py_str]) w.
Proof.
  apply (structural_types_decode_to_generics (TClass py_str) TAny [TClass py_int]).
  - apply (canonical_scalar py_str STRING). cbn. tauto.
  - apply canonical_Any.
Defined.

(** ** Type parameters *)

Lemma unpack_two_Return rec args w p w' :
  unpack_two rec args w = Return p w' -> length args = 2.
Proof.
  unfold unpack_two. destruct args as [|a [|b [|c args]]]; try done.
  - intros (x & w1 & _ & [=])%bind_Return.
  - intros (x & w1 & _ & (y & w2 & _ & (z & w3 & _ & [=])%bind_Return)
              %bind_Return)%bind_Return.
Qed.

(** X10. A mapping typing, exact or not, is encoded only when it has exactly
    two type parameters, and a sequence typing only when it has at least one:
    the bare [Mapping] raises the ValueError of the unpacking and the bare
    sequence an IndexError, at any depth. *)
Theorem type_parameters_are_needed :
  forall fuel self w,
    typing_to_runner_api (S fuel) self (TMapping []) w
    = Raise (ValueError (NotEnoughValuesToUnpack 2 0)) /\
    typing_to_runner_api (S fuel) self (TMappingLike []) w
    = Raise (ValueError (NotEnoughValuesToUnpack 2 0)) /\
    typing_to_runner_api (S fuel) self (TSequence []) w = Raise IndexError /\
    forall args d w',
      (typing_to_runner_api fuel self (TMapping args) w = Return d w' ->
       length args = 2) /\
      (typing_to_runner_api fuel self (TMappingLike args) w = Return d w' ->
       length args = 2) /\
      (typing_to_runner_api fuel self (TSequence args) w = Return d w' ->
       args <> []).
Proof.
  intros fuel self w. split; [done|]. split; [done|]. split; [done|].
  intros args d w'. destruct fuel as [|fuel]; [done|].
  cbn [typing_to_runner_api]. unfold typing_to_runner_api_body.
  unfold bind at 1 3 5. unfold get_world at 1 2 3. cbn.
  split; [|split].
  - intros ([k v] & w1 & H & _)%bind_Return. by eapply unpack_two_Return.
  - intros ([k v] & w1 & H & _)%bind_Return. by eapply unpack_two_Return.
  - by destruct args.
Qed.

(** ** What the translations never touch *)

(** Any relation between worlds that holds of the steps that encoding takes
    holds of a whole encoding. *)
Section EncodingKeeps.
Variable self : registry_ref.
Variable R : world -> world -> Prop.
Hypothesis R_refl : forall w, R w w.
Hypothesis R_trans : forall w1 w2 w3, R w1 w2 -> R w2 w3 -> R w1 w3.
Hypothesis R_draw : forall w n, R w (with_uuid4_calls n w).
Hypothesis R_add :
  forall w i x, R w (with_registry self (<[i := x]> (registry_of self w)) w).
Hypothesis R_carry :
  forall w i c, R w (with_classes (alter (carry_schema_id i) c (classes w)) w).
Hypothesis R_hold :
  forall w r rtc, R w (with_constraints (<[r := rtc]> (constraints w)) w).

Lemma set_schema_id_keeps type_ at_ schema_id_ w w' :
  set_schema_id type_ at_ schema_id_ w = Return tt w' -> R w w'.
Proof using R_refl R_carry R_hold.
  unfold set_schema_id.
  destruct (_identity type_) as [c|own]; [|destruct at_ as [r|]];
    intros [= <-]; auto.
Qed.

Lemma fields_to_runner_api_keeps rec fields w fs w' :
  (forall t w d w', rec t w = Return d w' -> R w w') ->
  fields_to_runner_api rec fields w = Return fs w' -> R w w'.
Proof using R_refl R_trans.
  intros Hrec. unfold fields_to_runner_api. revert w fs w'.
  induction fields as [|[name t] fields IH]; intros w fs w'; cbn [for_each].
  - intros [= _ <-]. apply R_refl.
  - intros (f & w1 & H1 & (fs' & w2 & H2 & [= _ <-])%bind_Return)%bind_Return.
    cbv beta iota in H1. apply bind_Return in H1 as (d & w0 & H1 & [= _ <-]).
    eapply R_trans; [by eapply Hrec|by eapply IH].
Qed.

Lemma row_constraint_keeps rec type_ at_ w d w' :
  (forall t w d w', rec t w = Return d w' -> R w w') ->
  row_constraint_to_runner_api rec self type_ at_ w = Return d w' -> R w w'.
Proof using All.
  intros Hrec H.
  apply row_constraint_Return in H
    as [(sid & typing & schema & _ & _ & _ & ->)
       |(sid & w1 & fields & w2 & Hstart & Hf & -> & _)]; [apply R_refl|].
  assert (R w w1) as H1.
  { destruct Hstart as [(_ & w0 & Hgen & Hset)|(_ & _ & ->)]; [|apply R_refl].
    apply generate_new_id_Return in Hgen as (k & _ & _ & _ & ->).
    eapply R_trans; [apply R_draw|by eapply set_schema_id_keeps]. }
  eapply R_trans; [exact H1|].
  eapply R_trans; [by eapply fields_to_runner_api_keeps|apply R_add].
Qed.

Lemma unpack_two_keeps rec args w p w' :
  (forall t w d w', rec t w = Return d w' -> R w w') ->
  unpack_two rec args w = Return p w' -> R w w'.
Proof using R_trans.
  intros Hrec H. pose proof (unpack_two_Return _ _ _ _ _ H) as Hlen.
  destruct args as [|k [|v [|x args]]]; try discriminate.
  cbn in H.
  apply bind_Return in H as (dk & w1 & Hk & (dv & w2 & Hv & [= _ <-])%bind_Return).
  eapply R_trans; by eapply Hrec.
Qed.

Lemma typing_to_runner_api_body_keeps rec type_ w d w' :
  (forall t w d w', rec t w = Return d w' -> R w w') ->
  typing_to_runner_api_body rec self type_ w = Return d w' -> R w w'.
Proof using All.
  intros Hrec. unfold typing_to_runner_api_body.
  intros (w0 & w0' & [= <- <-] & H)%bind_Return.
  destruct type_ as [c| | |s|c|r|args|t|args|args].
  - (* a class *)
    cbn [as_row_constraint from_user_type _match_is_exactly_mapping
           _match_is_optional] in H.
    destruct (primitive_to_atomic (TClass c)); [injection H as _ <-; apply R_refl|].
    destruct (_safe_issubclass (TClass c) Sequence); [discriminate|].
    destruct (_safe_issubclass (TClass c) Mapping).
    { apply bind_Return in H as ([k v] & w1 & H & [= _ <-]).
      by eapply unpack_two_keeps. }
    unfold try_except_ValueError in H.
    destruct (from_typing (TClass c) w) as [lt w1|[]] eqn:Hlt; try discriminate.
    + assert (w1 = w) as ->.
      { unfold from_typing, bind, get_world in Hlt.
        destruct (get_logical_type_by_language_type _ _); [|discriminate].
        by injection Hlt as _ <-. }
      apply bind_Return in H as (rep & w2 & H & [= _ <-]). by eapply Hrec.
    + injection H as _ <-. apply R_refl.
  - (* Any *)
    cbn in H. injection H as _ <-. apply R_refl.
  - (* None *)
    cbn in H. injection H as _ <-. apply R_refl.
  - (* a Schema *)
    injection H as _ <-. apply R_refl.
  - (* a NamedTuple class *)
    cbn [as_row_constraint] in H.
    destruct (from_user_type (TNamedTuple c) w) as [rtc|];
      [by eapply row_constraint_keeps|].
    cbn in H. injection H as _ <-. apply R_refl.
  - (* a RowTypeConstraint *)
    destruct (as_row_constraint (TRowConstraint r) w) as [[rtc r']|];
      [by eapply row_constraint_keeps|].
    cbn in H. injection H as _ <-. apply R_refl.
  - (* an exact mapping *)
    cbn in H. apply bind_Return in H as ([k v] & w1 & H & [= _ <-]).
    by eapply unpack_two_keeps.
  - (* an optional *)
    cbn in H. apply bind_Return in H as (x & w1 & H & [= _ <-]). by eapply Hrec.
  - (* a sequence *)
    cbn in H. destruct args as [|a args]; [discriminate|].
    apply bind_Return in H as (x & w1 & H & [= _ <-]). by eapply Hrec.
  - (* another mapping *)
    cbn in H. apply bind_Return in H as ([k v] & w1 & H & [= _ <-]).
    by eapply unpack_two_keeps.
Qed.

Lemma typing_to_runner_api_keeps fuel type_ w d w' :
  typing_to_runner_api fuel self type_ w = Return d w' -> R w w'.
Proof using All.
  revert type_ w d w'. induction fuel as [|fuel IH]; intros type_ w d w';
    [discriminate|].
  cbn [typing_to_runner_api]. by apply typing_to_runner_api_body_keeps.
Qed.
End EncodingKeeps.

(** The same for decoding, whose steps are others. *)
Section DecodingKeeps.
Variable self : registry_ref.
Variable R : world -> world -> Prop.
Hypothesis R_refl : forall w, R w w.
Hypothesis R_trans : forall w1 w2 w3, R w1 w2 -> R w2 w3 -> R w1 w3.
Hypothesis R_add :
  forall w i x, R w (with_registry self (<[i := x]> (registry_of self w)) w).
Hypothesis R_carry :
  forall w i c, R w (with_classes (alter (carry_schema_id i) c (classes w)) w).
Hypothesis R_class : forall w cls, R w (with_classes (classes w ++ [cls]) w).
Hypothesis R_object :
  forall w rtc, R w (with_constraints (constraints w ++ [rtc]) w).
Hypothesis R_coder : forall w c, R w (with_coders (c :: coders_registry w) w).

Lemma synthesized_keeps schema subfields w :
  R w (synthesized self schema subfields w).
Proof using All.
  unfold synthesized. cbv zeta.
  eapply R_trans; [|apply R_carry].
  eapply R_trans; [|apply R_object].
  eapply R_trans; [|apply R_coder].
  eapply R_trans; [|apply R_add].
  apply R_class.
Qed.

Lemma fields_from_runner_api_keeps rec fields w subfields w' :
  (forall t w d w', rec t w = Return d w' -> R w w') ->
  fields_from_runner_api rec fields w = Return subfields w' -> R w w'.
Proof using R_refl R_trans.
  intros Hrec. unfold fields_from_runner_api. revert w subfields w'.
  induction fields as [|f fields IH]; intros w subfields w'; cbn [for_each].
  - intros [= _ <-]. apply R_refl.
  - intros (x & w1 & H1 & (xs & w2 & H2 & [= _ <-])%bind_Return)%bind_Return.
    apply bind_Return in H1 as (t & w0 & H1 & [= _ <-]).
    unfold try_except_ValueError in H1.
    destruct (bind _ _ w) as [t0 w3|[]] eqn:Hb; try discriminate.
    injection H1 as _ <-.
    apply bind_Return in Hb as (t1 & w4 & Hb & ->%unwrap_row_constraint_Return).
    eapply R_trans; [by eapply Hrec|by eapply IH].
Qed.

Lemma typing_from_runner_api_body_keeps rec fieldtype_proto w t w' :
  (forall d w t w', rec d w = Return t w' -> R w w') ->
  typing_from_runner_api_body rec self fieldtype_proto w = Return t w' ->
  R w w'.
Proof using All.
  intros Hrec H.
  destruct fieldtype_proto as [[] ti].
  { unfold typing_from_runner_api_body in H. cbn [nullable] in H.
    apply bind_Return in H as (base & w1 & H1 & H).
    assert (w' = w1) as -> by (destruct base; by injection H as _ <-).
    by eapply Hrec. }
  destruct ti as [|a|e|k v|schema|urn_ rep].
  - discriminate.
  - unfold typing_from_runner_api_body in H. cbn [nullable type_info] in H.
    destruct (dict_get a ATOMIC_TYPE_TO_PRIMITIVE); [|discriminate].
    injection H as _ <-. apply R_refl.
  - apply bind_Return in H as (x & w1 & H1 & [= _ <-]). by eapply Hrec.
  - apply bind_Return in H as (x & w1 & H1 & (y & w2 & H2 & [= _ <-])%bind_Return).
    eapply R_trans; by eapply Hrec.
  - change (mkFieldType false (row_type schema)) with (RowFieldType schema) in H.
    destruct (get_typing_by_id self (schema_id schema) w) as [u w0|] eqn:Hu.
    2:{ unfold typing_from_runner_api_body in H.
        cbn [RowFieldType nullable type_info] in H.
        by rewrite (bind_Raise _ _ _ _ Hu) in H. }
    pose proof Hu as [-> _]%get_typing_by_id_Return.
    destruct u as [c|].
    + unfold typing_from_runner_api_body in H.
      cbn [RowFieldType nullable type_info] in H.
      apply bind_Return in H as (u' & w0' & Hu' & H).
      rewrite Hu in Hu'. injection Hu' as <- <-.
      unfold bind, get_world, new_row_constraint, modify, ret in H.
      destruct (from_user_type (TNamedTuple c) w); injection H as _ <-;
        [apply R_object|apply R_refl].
    + apply decode_row_unknown in H as (subfields & w1 & Hf & _ & ->); [|done].
      eapply R_trans; [by eapply fields_from_runner_api_keeps|].
      apply synthesized_keeps.
  - unfold typing_from_runner_api_body in H. cbn [nullable type_info] in H.
    destruct (decide (urn_ = PYTHON_ANY_URN)).
    + injection H as _ <-. apply R_refl.
    + unfold from_runner_api, bind, get_world, ret in H.
      destruct (get_logical_type_by_urn _ _); [|discriminate].
      injection H as _ <-. apply R_refl.
Qed.

Lemma typing_from_runner_api_keeps fuel fieldtype_proto w t w' :
  typing_from_runner_api fuel self fieldtype_proto w = Return t w' -> R w w'.
Proof using All.
  revert fieldtype_proto w t w'.
  induction fuel as [|fuel IH]; intros fieldtype_proto w t w'; [discriminate|].
  cbn [typing_from_runner_api]. by apply typing_from_runner_api_body_keeps.
Qed.
End DecodingKeeps.

Lemma decoding_keeps_unicode fuel self fieldtype_proto w t w' :
  typing_from_runner_api fuel self fieldtype_proto w = Return t w' ->
  unicode_identifier w' = unicode_identifier w.
Proof.
  apply (typing_from_runner_api_keeps self
           (fun w w' => unicode_identifier w' = unicode_identifier w)).
  - done.
  - intros w1 w2 w3 H1 H2. by rewrite H2.
  - intros w0 i x. by destruct self.
  - done.
  - done.
  - done.
  - done.
Qed.

(** ** The synthesis of a class for a schema that is not registered *)

Lemma synthesized_lookups self schema subfields w :
  let c := length (classes w) in
  let w' := synthesized self schema subfields w in
  constraints w' !! length (constraints w)
  = Some (mkRowTypeConstraint subfields (OfUserType c)) /\
  classes w' !! c
  = Some (mkNamedTupleClass
            ("BeamSchema_" ++ replace "-"%char "_"%char (schema_id schema))
            subfields (Some (schema_id schema))) /\
  registry_of self w' !! schema_id schema = Some (Some c, schema).
Proof.
  unfold synthesized. cbv zeta. split; [|split].
  - destruct self; cbn; by apply list_lookup_middle.
  - destruct self; cbn; rewrite list_lookup_alter;
      (destruct (decide (length (classes w) = length (classes w)));
       [|congruence]); by rewrite list_lookup_middle.
  - destruct self; cbn; apply lookup_insert_eq.
Qed.

Lemma field_decoded_loop fuel self field w t w' :
  field_decoded fuel self field w t w' ->
  try_except_ValueError
    (let* t := typing_from_runner_api fuel self (field_type field) in
     unwrap_row_constraint t)
    (fun e => raise (ValueError (FailedToDecodeField field e)))
    ret w
  = Return t w'.
Proof.
  unfold try_except_ValueError.
  intros [t0 w0 H Hplain|r rtc c w0 H Hobj Hid].
  - rewrite (bind_step _ _ _ _ _ H).
    unfold unwrap_row_constraint, bind, get_world.
    destruct t0; try done. by destruct (Hplain obj).
  - rewrite (bind_step _ _ _ _ _ H).
    unfold unwrap_row_constraint, bind, get_world.
    cbn [as_row_constraint]. rewrite Hobj. cbn.
    unfold user_type_of. by rewrite Hid.
Qed.

Lemma field_decoded_unicode fuel self field w t w' :
  field_decoded fuel self field w t w' ->
  unicode_identifier w' = unicode_identifier w.
Proof. intros [? ? H _|? ? ? ? H _ _]; by eapply decoding_keeps_unicode. Qed.

Lemma fields_decoded_loop fuel self fields w subfields w' :
  fields_decoded fuel self fields w subfields w' ->
  fields_from_runner_api (typing_from_runner_api fuel self) fields w
  = Return subfields w' /\
  map fst subfields = map field_name fields /\
  unicode_identifier w' = unicode_identifier w.
Proof.
  unfold fields_from_runner_api.
  induction 1 as [w|field fields w t w1 subfields w2 Hfield _ (IH & IHn & IHu)].
  - done.
  - cbn [for_each]. split; [|split].
    + pose proof (field_decoded_loop _ _ _ _ _ _ Hfield) as Hloop.
      unfold bind at 1 2. rewrite Hloop. cbn [ret]. unfold bind at 1.
      by rewrite IH.
    + cbn. by rewrite IHn.
    + rewrite IHu. by eapply field_decoded_unicode.
Qed.




Lemma ids_kept_add self w i x :
  ids_kept self w (with_registry self (<[i := x]> (registry_of self w)) w).
Proof.
  intros j Hj.
  replace (registry_of self (with_registry self (<[i:=x]> (registry_of self w)) w))
    with (<[i := x]> (registry_of self w)) by (by destruct self).
  destruct (decide (i = j)) as [->|Hne].
  - rewrite lookup_insert_eq. eauto.
  - by rewrite lookup_insert_ne.
Qed.

Lemma encoding_untouched fuel self type_ w d w' :
  typing_to_runner_api fuel self type_ w = Return d w' ->
  untouched_by_encoding self w w'.
Proof.
  apply typing_to_runner_api_keeps; unfold untouched_by_encoding.
  - done.
  - intros w1 w2 w3 (H1 & H2 & H3 & H4 & H5 & H6) (H1' & H2' & H3' & H4' & H5' & H6').
    repeat split; congruence.
  - done.
  - intros w0 i x. by destruct self.
  - intros w0 i c. cbn. by rewrite length_alter.
  - intros w0 r rtc. cbn. by rewrite length_insert.
Qed.

Lemma encoding_keeps_ids fuel self type_ w d w' :
  typing_to_runner_api fuel self type_ w = Return d w' -> ids_kept self w w'.
Proof.
  apply typing_to_runner_api_keeps; unfold ids_kept.
  - done.
  - eauto.
  - intros w0 n. by destruct self.
  - apply ids_kept_add.
  - intros w0 i c. by destruct self.
  - intros w0 r rtc. by destruct self.
Qed.

(** X11. An encoding that returns has changed, of the registries, only the
    one it was given: the other one is as it was.  It has made no class and
    no constraint object, has registered no coder and no logical type, and
    every id of the registry is still one. *)
Theorem encoding_touches_only_its_registry :
  forall fuel self type_ w d w',
    typing_to_runner_api fuel self type_ w = Return d w' ->
    untouched_by_encoding self w w' /\ ids_kept self w w'.
Proof.
  intros fuel self type_ w d w' H. split.
  - by eapply encoding_untouched.
  - by eapply encoding_keeps_ids.
Qed.

Lemma encoding_touches_only_its_registry_witness :
  exists d w',
    typing_to_runner_api 3 PrivateRegistry (TClass Timestamp)
      (imported counting_uuids) = Return d w' /\
    SCHEMA_REGISTRY w' = SCHEMA_REGISTRY (imported counting_uuids) /\
    is_Some (private_registry w' !! "0").
Proof.
  eexists _, _.
  assert (H : typing_to_runner_api 3 PrivateRegistry (TClass Timestamp)
                (imported counting_uuids) = Return _ _)
    by (vm_compute; reflexivity).
  destruct (encoding_touches_only_its_registry _ _ _ _ _ _ H) as [(Hother & _) _].
  split; [exact H|]. split; [exact Hother|]. vm_compute. eauto.
Defined.

(** X12. A decoding that returns has drawn no uuid and has changed, of the
    registries, only the one it was given; the logical types are as they
    were, every id of the registry is still one, and every class is still
    there. *)
Theorem decoding_touches_only_its_registry :
  forall fuel self fieldtype_proto w t w',
    typing_from_runner_api fuel self fieldtype_proto w = Return t w' ->
    untouched_by_decoding self w w' /\ ids_kept self w w' /\
    length (classes w) <= length (classes w').
Proof.
  intros fuel self fieldtype_proto w t w' H. split; [|split].
  - revert H. apply typing_from_runner_api_keeps; unfold untouched_by_decoding.
    + done.
    + intros w1 w2 w3 (H1 & H2 & H3 & H4) (H1' & H2' & H3' & H4').
      repeat split; congruence.
    + intros w0 i x. by destruct self.
    + done.
    + done.
    + done.
    + done.
  - revert H. apply typing_from_runner_api_keeps; unfold ids_kept.
    + done.
    + eauto.
    + apply ids_kept_add.
    + intros w0 i c. by destruct self.
    + intros w0 cls. by destruct self.
    + intros w0 rtc. by destruct self.
    + intros w0 c. by destruct self.
  - by eapply ext_classes_length, typing_from_runner_api_ext.
Qed.

Lemma decoding_touches_only_its_registry_witness :
  let schema :=
    mkSchema [mkField "a" (mkFieldType true (atomic_type INT64))] "ab-cd" in
  exists t w',
    typing_from_runner_api 3 PrivateRegistry (RowFieldType schema)
      (imported counting_uuids) = Return t w' /\
    SCHEMA_REGISTRY w' = SCHEMA_REGISTRY (imported counting_uuids) /\
    uuid4_calls w' = 0.
Proof.
  intros schema. eexists _, _.
  assert (H : typing_from_runner_api 3 PrivateRegistry (RowFieldType schema)
                (imported counting_uuids) = Return _ _)
    by (vm_compute; reflexivity).
  destruct (decoding_touches_only_its_registry _ _ _ _ _ _ H)
    as [(Hother & _ & _ & Hcalls) _].
  split; [exact H|]. split; [exact Hother|exact Hcalls].
Defined.

(** ** Round trips of logical and composite types *)

Lemma encoding_keeps_logical_types fuel self type_ w d w' :
  typing_to_runner_api fuel self type_ w = Return d w' ->
  _known_logical_types w' = _known_logical_types w.
Proof.
  apply (typing_to_runner_api_keeps self
           (fun w w' => _known_logical_types w' = _known_logical_types w));
    try done.
  - intros w1 w2 w3. congruence.
  - intros w0 i x. by destruct self.
Qed.

(** X13. The language type of a registered logical type, when its encoding
    returns, is encoded as a Logical descriptor with the urn of the logical
    type and the descriptor of its representation type, and that descriptor is
    decoded as the language type again.  The registry of logical types has to
    hold the logical type under its urn too, as registration makes it. *)
Theorem logical_type_round_trip :
  forall fuel fuel2 self c logical_type_ w d w',
    primitive_to_atomic (TClass c) = None ->
    get_logical_type_by_language_type (_known_logical_types w) (TClass c)
    = Some logical_type_ ->
    get_logical_type_by_urn (_known_logical_types w) (urn logical_type_)
    = Some logical_type_ ->
    language_type logical_type_ = c ->
    urn logical_type_ <> PYTHON_ANY_URN ->
    typing_to_runner_api fuel self (TClass c) w = Return d w' ->
    (exists representation,
       typing_to_runner_api (pred fuel) self (representation_type logical_type_) w
       = Return representation w' /\
       d = mkFieldType false
             (logical_type (urn logical_type_) (Some representation))) /\
    typing_from_runner_api (S fuel2) self d w' = Return (TClass c) w'.
Proof.
  intros fuel fuel2 self c lt w d w' Hprim Hlang Hurn Hc Hany H.
  pose proof (encoding_keeps_logical_types _ _ _ _ _ _ H) as Hknown.
  destruct fuel as [|fuel]; [discriminate|].
  cbn [typing_to_runner_api] in H. unfold typing_to_runner_api_body in H.
  apply bind_Return in H as (w0 & w0' & [= <- <-] & H).
  cbn [as_row_constraint from_user_type _match_is_exactly_mapping
         _match_is_optional] in H.
  rewrite Hprim in H.
  assert (Hseq : _safe_issubclass (TClass c) Sequence = false)
    by (by destruct c).
  assert (Hmap : _safe_issubclass (TClass c) Mapping = false)
    by (by destruct c).
  rewrite Hseq, Hmap in H.
  assert (Hft : from_typing (TClass c) w = Return lt w)
    by (unfold from_typing, bind, get_world; by rewrite Hlang).
  unfold try_except_ValueError in H. rewrite Hft in H.
  apply bind_Return in H as (rep & w1 & Hrep & [= <- <-]).
  split; [by exists rep|].
  cbn [typing_from_runner_api]. unfold typing_from_runner_api_body.
  cbn [nullable type_info]. rewrite decide_False by done.
  unfold from_runner_api, bind, get_world. rewrite Hknown, Hurn. cbn.
  by rewrite Hc.
Qed.

Lemma logical_type_round_trip_witness :
  exists d w',
    typing_to_runner_api 3 DefaultRegistry (TClass Timestamp)
      (imported counting_uuids) = Return d w' /\
    typing_from_runner_api 1 DefaultRegistry d w' = Return (TClass Timestamp) w'.
Proof.
  eexists _, _.
  assert (H : typing_to_runner_api 3 DefaultRegistry (TClass Timestamp)
                (imported counting_uuids) = Return _ _)
    by (vm_compute; reflexivity).
  split; [exact H|].
  apply (logical_type_round_trip 3 0 DefaultRegistry Timestamp (MicrosInstant.cls 0)
           (imported counting_uuids) _ _ eq_refl eq_refl eq_refl eq_refl
           ltac:(done) H).
Defined.

(** The encoding of a NamedTuple class whose schema was not registered
    registers the class with the schema that it answers. *)
Lemma encode_named_tuple_registers fuel self c cls w d w' :
  classes w !! c = Some cls ->
  (forall sid, cls_schema_id cls = Some sid ->
               registry_of self w !! sid = None) ->
  typing_to_runner_api fuel self (TNamedTuple c) w = Return d w' ->
  exists schema cls',
    d = RowFieldType schema /\
    registry_of self w' !! schema_id schema = Some (Some c, schema) /\
    classes w' !! c = Some cls' /\
    cls_fields cls' = cls_fields cls /\
    exists w1 w2,
      fields_to_runner_api (typing_to_runner_api (pred fuel) self)
        (cls_fields cls) w1 = Return (schema_fields schema) w2.
Proof.
  intros Hcls Hunreg H.
  destruct fuel as [|fuel]; [discriminate|].
  assert (Hc : constraint_of (TNamedTuple c) w
               = Some (mkRowTypeConstraint (cls_fields cls) (OfUserType c), None)).
  { unfold constraint_of. cbn. by rewrite Hcls. }
  rewrite (encode_composite _ _ _ _ _ _ Hc) in H.
  assert (Hext : ext w w').
  { eapply row_constraint_ext; [| |exact H]; [|done].
    intros t. apply typing_to_runner_api_ext. }
  destruct (ext_classes _ _ Hext _ _ Hcls) as (cls' & Hcls' & Hfields & _).
  apply row_constraint_Return in H
    as [(sid & typing & schema & Hid & Hreg & _ & _)
       |(sid & w1 & fields & w2 & _ & Hf & Hw' & ->)].
  { unfold schema_id_of in Hid. cbn in Hid. rewrite Hcls in Hid. cbn in Hid.
    apply Hunreg in Hid. congruence. }
  exists (mkSchema fields sid), cls'. split; [done|]. split.
  { rewrite Hw'. destruct self; cbn; apply lookup_insert_eq. }
  split; [done|]. split; [done|]. by exists w1, w2.
Qed.

(** X14. A NamedTuple class whose schema is not registered yet, once encoded,
    is what decoding its descriptor stands for: the answer is a constraint of
    that very class, with its fields; decoding makes no class and leaves the
    registry as it is. *)
Theorem named_tuple_round_trip :
  forall fuel fuel2 self c cls w d w',
    classes w !! c = Some cls ->
    (forall sid, cls_schema_id cls = Some sid ->
                 registry_of self w !! sid = None) ->
    typing_to_runner_api fuel self (TNamedTuple c) w = Return d w' ->
    exists r w'',
      typing_from_runner_api (S fuel2) self d w' = Return (TRowConstraint r) w'' /\
      constraints w'' !! r
      = Some (mkRowTypeConstraint (cls_fields cls) (OfUserType c)) /\
      classes w'' = classes w' /\
      registry_of self w'' = registry_of self w'.
Proof.
  intros fuel fuel2 self c cls w d w' Hcls Hunreg H.
  destruct (encode_named_tuple_registers _ _ _ _ _ _ _ Hcls Hunreg H)
    as (schema & cls' & -> & Hreg & Hcls' & Hfields & _).
  exists (length (constraints w')),
    (with_constraints
       (constraints w' ++ [mkRowTypeConstraint (cls_fields cls') (OfUserType c)]) w').
  split.
  { cbn [typing_from_runner_api]. by eapply decode_row_known. }
  split; [|by destruct self].
  cbn. rewrite <- Hfields. by apply list_lookup_middle.
Qed.

Lemma named_tuple_round_trip_witness :
  exists d w' r w'',
    typing_to_runner_api 2 DefaultRegistry (TNamedTuple 0)
      (imported counting_uuids) = Return d w' /\
    typing_from_runner_api 1 DefaultRegistry d w' = Return (TRowConstraint r) w'' /\
    constraints w'' !! r
    = Some (mkRowTypeConstraint
              (cls_fields MicrosInstantRepresentation_class) (OfUserType 0)).
Proof.
  eexists _, _.
  assert (H : typing_to_runner_api 2 DefaultRegistry (TNamedTuple 0)
                (imported counting_uuids) = Return _ _)
    by (vm_compute; reflexivity).
  destruct (named_tuple_round_trip 2 0 DefaultRegistry 0
              MicrosInstantRepresentation_class (imported counting_uuids) _ _
              eq_refl ltac:(by intros sid) H) as (r & w'' & Hd & Hr & _).
  exists r, w''. split; [exact H|]. split; [exact Hd|exact Hr].
Defined.

(** X15. The constraint that decoding a Row descriptor of an unknown id has
    made is encoded, at any depth, as that Row descriptor again, with the
    same schema; the encoding changes nothing. *)
Theorem row_descriptor_round_trip :
  forall fuel fuel2 self schema w t w',
    registry_of self w !! schema_id schema = None ->
    typing_from_runner_api (S fuel) self (RowFieldType schema) w = Return t w' ->
    typing_to_runner_api (S fuel2) self t w' = Return (RowFieldType schema) w'.
Proof.
  intros fuel fuel2 self schema w t w' Hnone H.
  cbn [typing_from_runner_api] in H.
  apply decode_row_unknown in H as (subfields & w1 & _ & -> & ->).
  2:{ unfold get_typing_by_id, bind, get_world. by rewrite Hnone. }
  destruct (synthesized_lookups self schema subfields w1) as (Hobj & Hcls & Hreg).
  cbv zeta in Hobj, Hcls, Hreg.
  erewrite encode_composite.
  2:{ unfold constraint_of. cbn [as_row_constraint]. rewrite Hobj. reflexivity. }
  eapply row_constraint_found; [|exact Hreg].
  unfold schema_id_of. cbn [_identity]. by rewrite Hcls.
Qed.

Lemma row_descriptor_round_trip_witness :
  let schema :=
    mkSchema [mkField "a" (mkFieldType true (atomic_type INT64))] "ab-cd" in
  exists t w',
    typing_from_runner_api 3 DefaultRegistry (RowFieldType schema)
      (imported counting_uuids) = Return t w' /\
    typing_to_runner_api 1 DefaultRegistry t w' = Return (RowFieldType schema) w'.
Proof.
  intros schema. eexists _, _.
  assert (H : typing_from_runner_api 3 DefaultRegistry (RowFieldType schema)
                (imported counting_uuids) = Return _ _)
    by (vm_compute; reflexivity).
  split; [exact H|].
  exact (row_descriptor_round_trip 2 0 DefaultRegistry schema
           (imported counting_uuids) _ _ eq_refl H).
Defined.

(** ** Fields that fail to decode *)

Lemma for_each_prefix_Raise {A B} (g : A -> M B) pre x post w xs w1 e :
  for_each g pre w = Return xs w1 ->
  g x w1 = Raise e ->
  for_each g (pre ++ x :: post) w = Raise e.
Proof.
  revert w xs. induction pre as [|y pre IH]; intros w xs; cbn [for_each app].
  - intros [= _ <-] Hx. by apply bind_Raise.
  - intros (b & w2 & Hy & (bs & w3 & Hpre & [= _ <-])%bind_Return)%bind_Return Hx.
    rewrite (bind_step _ _ _ _ _ Hy). apply bind_Raise. by eapply IH.
Qed.

(** X16. When the fields before a field of a schema of an unknown id are
    decoded and that field raises, decoding the Row descriptor raises: a
    ValueError of the field comes out as the ValueError that holds the Field
    proto and the first error; any other exception comes out as it is. *)
Theorem failing_field_is_reported :
  forall fuel self schema (pre : list Field) (field : Field) (post : list Field)
         w subfields w1 e,
    registry_of self w !! schema_id schema = None ->
    schema_fields schema = (pre ++ field :: post)%list ->
    fields_from_runner_api (typing_from_runner_api fuel self) pre w
    = Return subfields w1 ->
    typing_from_runner_api fuel self (field_type field) w1 = Raise e ->
    typing_from_runner_api (S fuel) self (RowFieldType schema) w
    = Raise (match e with
             | ValueError cause => ValueError (FailedToDecodeField field cause)
             | _ => e
             end).
Proof.
  intros fuel self schema pre field post w subfields w1 e Hnone Hfields Hpre He.
  cbn [typing_from_runner_api]. unfold typing_from_runner_api_body.
  cbn [RowFieldType nullable type_info].
  assert (Hu : get_typing_by_id self (schema_id schema) w = Return None w).
  { unfold get_typing_by_id, bind, get_world. by rewrite Hnone. }
  rewrite (bind_step _ _ _ _ _ Hu). apply bind_Raise.
  rewrite Hfields. unfold fields_from_runner_api in *.
  eapply for_each_prefix_Raise; [exact Hpre|].
  apply bind_Raise. unfold try_except_ValueError.
  rewrite (bind_Raise _ _ _ _ He). by destruct e.
Qed.

Lemma failing_field_is_reported_witness :
  let bad := mkField "b" (mkFieldType false (atomic_type UNSPECIFIED)) in
  typing_from_runner_api 2 DefaultRegistry
    (RowFieldType
       (mkSchema [mkField "a" (mkFieldType false (atomic_type INT64)); bad] "s"))
    (imported counting_uuids)
  = Raise (ValueError
             (FailedToDecodeField bad (UnsupportedAtomicType UNSPECIFIED))).
Proof.
  intros bad.
  apply (failing_field_is_reported 1 DefaultRegistry
           (mkSchema [mkField "a" (mkFieldType false (atomic_type INT64)); bad] "s")
           [mkField "a" (mkFieldType false (atomic_type INT64))] bad []
           (imported counting_uuids) [("a", TClass np_int64)]
           (imported counting_uuids)
           (ValueError (UnsupportedAtomicType UNSPECIFIED)));
    reflexivity.
Defined.

(** ** Schemas of field lists and of element types *)

Lemma canonical_fields_round_trip_depth (fields : list (string * py_type)) fuel :
  Forall (fun name_type => canonical name_type.2) fields ->
  Forall (fun name_type => depth name_type.2 <= fuel) fields ->
  exists fs,
    forall self w,
      fields_to_runner_api (typing_to_runner_api fuel self) fields w
      = Return fs w /\
      forall fuel2, fuel <= fuel2 ->
        for_each
          (fun field =>
             let* t := typing_from_runner_api fuel2 self (field_type field) in
             ret (field_name field, t)) fs w
        = Return fields w.
Proof.
  induction 1 as [|[name t] fields Ht _ IH]; intros Hdepth.
  - exists []. by intros self w.
  - apply Forall_cons_1 in Hdepth as [Hd Hdepth]. cbn [snd] in Ht, Hd.
    destruct (IH Hdepth) as (fs & Hfs).
    apply canonical_round_trip_depth in Ht as (d & _ & Ht).
    exists (mkField name d :: fs). intros self w.
    destruct (Hfs self w) as [Hto Hback].
    unfold fields_to_runner_api in *. cbn [for_each field_type field_name].
    split.
    + destruct (Ht fuel self w Hd) as [He _].
      unfold bind at 1 2. rewrite He. cbn [ret]. unfold bind at 1.
      by rewrite Hto.
    + intros fuel2 Hfuel2.
      destruct (Ht fuel2 self w ltac:(lia)) as [_ Hdec].
      unfold bind at 1 2. rewrite Hdec. cbn [ret]. unfold bind at 1.
      by rewrite (Hback fuel2 Hfuel2).
Qed.

(** X17. For a list of fields of canonical typings, at a depth that is
    enough for each, and when one of the next hundred values of the source
    of uuids is free, [named_fields_to_schema] returns a Schema under the
    first free value, and [named_fields_from_schema] reads back from it the
    list that was given: same names, same typings, same order. *)
Theorem named_fields_round_trip :
  forall fuel (names_and_types : list (string * py_type)) w k,
    Forall (fun name_type => canonical name_type.2) names_and_types ->
    Forall (fun name_type => depth name_type.2 <= fuel) names_and_types ->
    k < 100 ->
    (forall j, j < k -> taken DefaultRegistry w j) ->
    ~ taken DefaultRegistry w k ->
    exists fields,
      let schema := mkSchema fields (uuid4 w (uuid4_calls w + k)) in
      let w' := with_uuid4_calls (uuid4_calls w + k + 1) w in
      named_fields_to_schema fuel names_and_types w = Return schema w' /\
      named_fields_from_schema fuel schema w' = Return names_and_types w'.
Proof.
  intros fuel fields w k Hcanonical Hdepth Hk Hbefore Hfree.
  destruct (canonical_fields_round_trip_depth fields fuel Hcanonical Hdepth)
    as (fs & H).
  exists fs. cbv zeta. split.
  - unfold named_fields_to_schema.
    rewrite (bind_step _ _ _ _ _ (proj1 (H DefaultRegistry w))).
    unfold generate_new_id.
    by rewrite (bind_step _ _ _ _ _
                  (generate_new_id_tries_first_free _ _ _ _ Hk Hbefore Hfree)).
  - unfold named_fields_from_schema. cbn [schema_fields].
    by apply (proj2 (H DefaultRegistry _)).
Qed.

Lemma named_fields_round_trip_witness :
  let names_and_types :=
    [("a", TClass py_str); ("b", TOptional (TClass np_int64))] in
  let schema :=
    mkSchema [mkField "a" (mkFieldType false (atomic_type STRING));
              mkField "b" (mkFieldType true (atomic_type INT64))] "0" in
  let w := imported counting_uuids in
  named_fields_to_schema 2 names_and_types w
  = Return schema (with_uuid4_calls 1 w) /\
  named_fields_from_schema 2 schema (with_uuid4_calls 1 w)
  = Return names_and_types (with_uuid4_calls 1 w).
Proof.
  intros names_and_types schema w.
  assert (Hcanonical :
            Forall (fun name_type => canonical name_type.2) names_and_types).
  { constructor; [|constructor; [|constructor]]; cbn [snd].
    - apply (canonical_scalar py_str STRING). cbn. tauto.
    - apply canonical_Optional; [|done|done].
      apply (canonical_scalar np_int64 INT64). cbn. tauto. }
  assert (Hdepth :
            Forall (fun name_type => depth name_type.2 <= 2) names_and_types).
  { constructor; [|constructor; [|constructor]]; cbn; lia. }
  destruct (named_fields_round_trip 2 names_and_types w 0 Hcanonical Hdepth
              ltac:(lia) ltac:(intros j Hj; lia)
              ltac:(unfold taken; vm_compute; by intros [x Hx]))
    as (fields & Hto & Hfrom).
  assert (Hfields : fields = schema_fields schema).
  { pose proof Hto as Hto'. vm_compute in Hto'. by injection Hto' as <-. }
  subst fields. split; [exact Hto|exact Hfrom].
Defined.

Lemma encode_not_a_row fuel self type_ w d w' :
  match type_ with
  | TClass _ | TAny | TNone | TMapping _ | TSequence _ | TMappingLike _ => True
  | _ => False
  end ->
  typing_to_runner_api fuel self type_ w = Return d w' ->
  row_type_schema d = mkSchema [] "".
Proof.
  intros Hshape H. destruct fuel as [|fuel]; [discriminate|].
  cbn [typing_to_runner_api] in H. unfold typing_to_runner_api_body in H.
  apply bind_Return in H as (w0 & w0' & [= <- <-] & H).
  destruct type_ as [c| | |s|c|r|args|t|args|args]; try done.
  - cbn [as_row_constraint from_user_type _match_is_exactly_mapping
           _match_is_optional] in H.
    destruct (primitive_to_atomic (TClass c)); [by injection H as <- _|].
    destruct (_safe_issubclass (TClass c) Sequence); [discriminate|].
    destruct (_safe_issubclass (TClass c) Mapping).
    { by apply bind_Return in H as ([k v] & w1 & _ & [= <- _]). }
    unfold try_except_ValueError in H.
    destruct (from_typing (TClass c) w) as [lt w1|[]]; try discriminate.
    + by apply bind_Return in H as (rep & w2 & _ & [= <- _]).
    + by injection H as <- _.
  - cbn in H. by injection H as <- _.
  - cbn in H. by injection H as <- _.
  - cbn in H. by apply bind_Return in H as ([k v] & w1 & _ & [= <- _]).
  - cbn in H. destruct args as [|a args]; [discriminate|].
    by apply bind_Return in H as (x & w1 & _ & [= <- _]).
  - cbn in H. by apply bind_Return in H as ([k v] & w1 & _ & [= <- _]).
Qed.

(** X18. [named_tuple_to_schema] does not refuse a typing that is no
    NamedTuple: for a class, [Any], [None], a mapping or a sequence, when the
    encoding returns, the answer is the Schema with no field and the empty
    id; and for [Optional[t]] it is the answer for [t]. *)
Theorem named_tuple_to_schema_of_other_types :
  forall fuel self w,
    (forall type_ schema w',
       match type_ with
       | TClass _ | TAny | TNone | TMapping _ | TSequence _ | TMappingLike _ => True
       | _ => False
       end ->
       named_tuple_to_schema fuel type_ self w = Return schema w' ->
       schema = mkSchema [] "") /\
    (forall t,
       named_tuple_to_schema (S fuel) (TOptional t) self w
       = named_tuple_to_schema fuel t self w).
Proof.
  intros fuel self w. split.
  - intros type_ schema w' Hshape H. unfold named_tuple_to_schema in H.
    apply bind_Return in H as (d & w1 & H & [= <- _]).
    by eapply encode_not_a_row.
  - intros t. unfold named_tuple_to_schema, bind.
    rewrite encode_TOptional. unfold bind.
    by destruct (typing_to_runner_api fuel self t w) as [[n ti] w1|e].
Qed.

(** X19. [named_tuple_from_schema] of the Schema that [named_tuple_to_schema]
    has returned for a NamedTuple class whose schema was not registered is
    that class; no class is made. *)
Theorem named_tuple_schema_round_trip :
  forall fuel fuel2 self c cls w schema w',
    classes w !! c = Some cls ->
    (forall sid, cls_schema_id cls = Some sid ->
                 registry_of self w !! sid = None) ->
    named_tuple_to_schema fuel (TNamedTuple c) self w = Return schema w' ->
    exists w'',
      named_tuple_from_schema (S fuel2) schema self w' = Done (Some c) w'' /\
      classes w'' = classes w' /\
      registry_of self w'' = registry_of self w'.
Proof.
  intros fuel fuel2 self c cls w schema w' Hcls Hunreg H.
  unfold named_tuple_to_schema in H.
  apply bind_Return in H as (d & w1 & H & [= <- <-]).
  destruct (encode_named_tuple_registers _ _ _ _ _ _ _ Hcls Hunreg H)
    as (schema & cls' & -> & Hreg & Hcls' & _).
  exists (with_constraints
            (constraints w1 ++ [mkRowTypeConstraint (cls_fields cls') (OfUserType c)])
            w1).
  split; [|by destruct self].
  unfold named_tuple_from_schema. cbn [row_type_schema RowFieldType type_info].
  cbn [typing_from_runner_api].
  rewrite (decode_row_known _ _ _ _ _ _ _ Hreg Hcls').
  cbn [as_row_constraint]. cbn. by rewrite list_lookup_middle.
Qed.

Lemma named_tuple_schema_round_trip_witness :
  exists schema w' w'',
    named_tuple_to_schema 2 (TNamedTuple 0) DefaultRegistry
      (imported counting_uuids) = Return schema w' /\
    named_tuple_from_schema 1 schema DefaultRegistry w' = Done (Some 0) w''.
Proof.
  eexists _, _.
  assert (H : named_tuple_to_schema 2 (TNamedTuple 0) DefaultRegistry
                (imported counting_uuids) = Return _ _)
    by (vm_compute; reflexivity).
  destruct (named_tuple_schema_round_trip 2 0 DefaultRegistry 0
              MicrosInstantRepresentation_class (imported counting_uuids) _ _
              eq_refl ltac:(by intros sid) H) as (w'' & Hfrom & _).
  exists w''. split; [exact H|exact Hfrom].
Defined.

Lemma named_fields_to_schema_keeps_ids fuel names_and_types w schema w' :
  named_fields_to_schema fuel names_and_types w = Return schema w' ->
  ids_kept DefaultRegistry w w'.
Proof.
  unfold named_fields_to_schema.
  intros (fs & w1 & Hfs & (sid & w2 & Hgen & [= _ <-])%bind_Return)%bind_Return.
  apply generate_new_id_Return in Hgen as (k & _ & _ & _ & ->).
  assert (Hkept : ids_kept DefaultRegistry w w1).
  { refine (fields_to_runner_api_keeps (ids_kept DefaultRegistry) _ _
              _ _ _ _ _ _ Hfs).
    - by intros w0 i.
    - unfold ids_kept. eauto.
    - intros t w0 d w0'. apply encoding_keeps_ids. }
  intros i Hi. cbn. by apply Hkept.
Qed.

(** X20. For a RowTypeConstraint object, [schema_from_element_type] answers a
    Schema with the names of its fields, in order, under an id that is no id
    of the default registry, neither before the call nor after it: the id
    that the constraint may have and the Schema that may be registered for it
    are not used, and the new Schema is not registered. *)
Theorem row_constraint_schema_is_not_registered :
  forall fuel element_type rtc r w schema w',
    as_row_constraint element_type w = Some (rtc, r) ->
    schema_from_element_type fuel element_type w = Done schema w' ->
    map field_name (schema_fields schema) = map fst (_fields rtc) /\
    SCHEMA_REGISTRY w' !! schema_id schema = None /\
    forall i, is_Some (SCHEMA_REGISTRY w !! i) -> schema_id schema <> i.
Proof.
  intros fuel element_type rtc r w schema w' Hobj H.
  unfold schema_from_element_type in H. rewrite Hobj in H. unfold run in H.
  destruct (named_fields_to_schema fuel (_fields rtc) w) as [s w1|e] eqn:Hto;
    [|discriminate].
  injection H as <- <-.
  pose proof (named_fields_to_schema_keeps_ids _ _ _ _ _ Hto) as Hkept.
  apply named_fields_to_schema_Return in Hto as (Hnames & Hfresh & _).
  split; [done|]. split; [done|].
  intros i Hi <-. apply Hkept in Hi. cbn in Hi. rewrite Hfresh in Hi.
  by destruct Hi.
Qed.

Lemma row_constraint_schema_is_not_registered_witness :
  let w :=
    with_constraints [mkRowTypeConstraint [("a", TClass py_int)] (AdHoc None)]
      (imported counting_uuids) in
  exists schema w',
    schema_from_element_type 1 (TRowConstraint 0) w = Done schema w' /\
    map field_name (schema_fields schema) = ["a"] /\
    SCHEMA_REGISTRY w' !! schema_id schema = None.
Proof.
  intros w. eexists _, _.
  assert (H : schema_from_element_type 1 (TRowConstraint 0) w = Done _ _)
    by (vm_compute; reflexivity).
  destruct (row_constraint_schema_is_not_registered 1 (TRowConstraint 0)
              (mkRowTypeConstraint [("a", TClass py_int)] (AdHoc None)) 0 w _ _
              eq_refl H) as (Hnames & Hfresh & _).
  split; [exact H|]. split; [exact Hnames|exact Hfresh].
Defined.

(** The encoding of a NamedTuple class whose schema is not registered
    returns, when its fields are encoded and an id can be had. *)
Lemma encode_named_tuple_returns fuel self c cls w fs :
  classes w !! c = Some cls ->
  (forall sid, cls_schema_id cls = Some sid ->
               registry_of self w !! sid = None) ->
  (cls_schema_id cls = None -> some_id_is_free DefaultRegistry w) ->
  (forall w, fields_to_runner_api (typing_to_runner_api fuel self)
               (cls_fields cls) w = Return fs w) ->
  exists sid w',
    typing_to_runner_api (S fuel) self (TNamedTuple c) w
    = Return (RowFieldType (mkSchema fs sid)) w'.
Proof.
  intros Hcls Hunreg Hfree Hfs.
  rewrite (encode_composite _ _ _
             (mkRowTypeConstraint (cls_fields cls) (OfUserType c)) None).
  2:{ unfold constraint_of. cbn. by rewrite Hcls. }
  unfold row_constraint_to_runner_api. unfold bind at 1. unfold get_world at 1.
  unfold schema_id_of. cbn [_identity _fields]. rewrite Hcls. cbn [mbind option_bind].
  destruct (cls_schema_id cls) as [sid|] eqn:Hid.
  - unfold get_schema_by_id, bind, get_world. rewrite (Hunreg sid eq_refl).
    cbn [ret]. rewrite Hfs. cbn. eauto.
  - destruct (Hfree eq_refl) as (k0 & Hk0 & Hfree0).
    destruct (first_free_or_all_taken DefaultRegistry w 100)
      as [Hall|(k & Hk & Hbefore & Hfreek)]; [by destruct Hfree0; apply Hall|].
    unfold generate_new_id, bind.
    rewrite (generate_new_id_tries_first_free _ _ _ _ Hk Hbefore Hfreek).
    cbn [set_schema_id _identity modify ret]. rewrite Hfs. cbn. eauto.
Qed.

(** X21. For a NamedTuple class whose fields have canonical typings, whose
    schema is not registered, and which carries a schema id or can be given
    one (one of the next hundred values of the source of uuids is free),
    [named_fields_from_element_type] returns, at any depth that is enough
    for the fields, the fields of the class: same names, same typings, same
    order. *)
Theorem named_tuple_fields_round_trip :
  forall fuel c cls w,
    classes w !! c = Some cls ->
    Forall (fun name_type => canonical name_type.2) (cls_fields cls) ->
    Forall (fun name_type => depth name_type.2 <= fuel) (cls_fields cls) ->
    (forall sid, cls_schema_id cls = Some sid ->
                 SCHEMA_REGISTRY w !! sid = None) ->
    (cls_schema_id cls = None -> some_id_is_free DefaultRegistry w) ->
    exists w',
      named_fields_from_element_type (S fuel) (TNamedTuple c) w
      = Done (cls_fields cls) w'.
Proof.
  intros fuel c cls w Hcls Hcanonical Hdepth Hunreg Hfree.
  destruct (canonical_fields_round_trip_depth _ fuel Hcanonical Hdepth)
    as (fs & Hfs).
  destruct (encode_named_tuple_returns fuel DefaultRegistry c cls w fs
              Hcls Hunreg Hfree (fun w0 => proj1 (Hfs DefaultRegistry w0)))
    as (sid & w' & Hto).
  exists w'.
  unfold named_fields_from_element_type, schema_from_element_type.
  cbn [as_row_constraint]. unfold match_is_named_tuple.
  cbn [from_user_type]. rewrite Hcls. unfold run, named_tuple_to_schema.
  rewrite (bind_step _ _ _ _ _ Hto). cbn [ret].
  unfold named_fields_from_schema.
  cbn [row_type_schema RowFieldType type_info schema_fields].
  by rewrite (proj2 (Hfs DefaultRegistry w') (S fuel) ltac:(lia)).
Qed.

Lemma named_tuple_fields_round_trip_witness :
  exists w',
    named_fields_from_element_type 2 (TNamedTuple 0) (imported counting_uuids)
    = Done [("seconds", TClass np_int64); ("micros", TClass np_int64)] w'.
Proof.
  apply (named_tuple_fields_round_trip 1 0 MicrosInstantRepresentation_class
           (imported counting_uuids) eq_refl).
  - constructor; [|constructor; [|constructor]]; cbn [snd];
      apply (canonical_scalar np_int64 INT64); cbn; tauto.
  - constructor; [|constructor; [|constructor]]; cbn; lia.
  - by intros sid.
  - intros _. exists 0. split; [lia|]. unfold taken. vm_compute. by intros [x Hx].
Defined.

(** ** Names that [NamedTuple] refuses *)




(** X23. When the fields of a Row descriptor of an unknown id are decoded
    and [NamedTuple] refuses the type name or a field name, decoding the
    descriptor raises the ValueError of [NamedTuple] as it is: it is raised
    after the loop over the fields, outside its [try]. *)
Theorem refused_names_are_reported :
  forall fuel self schema w subfields w1 e,
    registry_of self w !! schema_id schema = None ->
    fields_decoded fuel self (schema_fields schema) w subfields w1 ->
    namedtuple_error (unicode_identifier w) (synthesized_name schema)
      (map field_name (schema_fields schema)) = Some e ->
    typing_from_runner_api (S fuel) self (RowFieldType schema) w
    = Raise (ValueError e).
Proof.
  intros fuel self schema w subfields w1 e Hnone Hfields Hnames.
  apply fields_decoded_loop in Hfields as (Hf & Hfst & Hu).
  cbn [typing_from_runner_api].
  rewrite (decode_row_synthesizes _ _ _ _ _ _ Hnone Hf).
  by rewrite Hu, Hfst, Hnames.
Qed.

Lemma refused_names_are_reported_witness :
  let a := mkField "a" (mkFieldType false (atomic_type INT64)) in
  typing_from_runner_api 2 DefaultRegistry
    (RowFieldType (mkSchema [a; a] "ab-cd")) (imported counting_uuids)
  = Raise (ValueError (DuplicateFieldName "a")) /\
  typing_from_runner_api 2 DefaultRegistry
    (RowFieldType (mkSchema [a] "a.b c")) (imported counting_uuids)
  = Raise (ValueError (NotAnIdentifier "BeamSchema_a.b c")).
Proof.
  intros a.
  assert (Hmore : forall fields subfields,
            fields_decoded 1 DefaultRegistry fields (imported counting_uuids)
              subfields (imported counting_uuids) ->
            fields_decoded 1 DefaultRegistry (a :: fields)
              (imported counting_uuids)
              (("a", TClass np_int64) :: subfields) (imported counting_uuids)).
  { intros fields subfields H.
    apply (one_more_field_decoded 1 DefaultRegistry a fields
             (imported counting_uuids) (TClass np_int64)
             (imported counting_uuids)); [|exact H].
    by apply plain_field_decoded. }
  split.
  - apply (refused_names_are_reported 1 DefaultRegistry (mkSchema [a; a] "ab-cd")
             (imported counting_uuids)
             [("a", TClass np_int64); ("a", TClass np_int64)]
             (imported counting_uuids)); [reflexivity| |reflexivity].
    apply Hmore, Hmore, no_field_decoded.
  - apply (refused_names_are_reported 1 DefaultRegistry (mkSchema [a] "a.b c")
             (imported counting_uuids) [("a", TClass np_int64)]
             (imported counting_uuids)); [reflexivity| |reflexivity].
    apply Hmore, no_field_decoded.
Defined.

Lemma all_chars_replace_ascii s :
  all_chars is_ascii (replace "-"%char "_"%char s) = all_chars is_ascii s.
Proof.
  induction s as [|c s IH]; [done|]. cbn [replace all_chars]. rewrite IH.
  by destruct (decide (c = "-"%char)) as [->|].
Qed.

Lemma all_chars_replace_identifier s :
  all_chars identifier_continue (replace "-"%char "_"%char s)
  = all_chars (fun c => identifier_continue c || bool_decide (c = "-"%char)) s.
Proof.
  induction s as [|c s IH]; [done|]. cbn [replace all_chars]. rewrite IH.
  destruct (decide (c = "-"%char)) as [->|Hne]; [done|].
  by rewrite (bool_decide_eq_false_2 _ Hne), orb_false_r.
Qed.

Lemma all_chars_app p s1 s2 :
  all_chars p (s1 +:+ s2) = all_chars p s1 && all_chars p s2.
Proof.
  induction s1 as [|c s1 IH]; [done|].
  change (String c s1 +:+ s2) with (String c (s1 +:+ s2)).
  cbn [all_chars]. by rewrite IH, andb_assoc.
Qed.

Lemma BeamSchema_prefix s :
  "BeamSchema_" +:+ s = String "B"%char ("eamSchema_" +:+ s).
Proof. reflexivity. Qed.

(** X24. The type name of the class that is synthesized for a schema with
    an ASCII id is an identifier exactly when the id is made of letters,
    digits, underscores and hyphens, as a uuid is; and it is never a
    keyword. *)
Theorem synthesized_name_is_an_identifier :
  forall unicode schema,
    all_chars is_ascii (schema_id schema) = true ->
    (isidentifier unicode (synthesized_name schema) = true <->
     all_chars (fun c => identifier_continue c || bool_decide (c = "-"%char))
       (schema_id schema) = true) /\
    synthesized_name schema ∉ kwlist.
Proof.
  intros unicode schema Hascii. unfold synthesized_name. split.
  - unfold isidentifier.
    rewrite all_chars_app, all_chars_replace_ascii, Hascii.
    replace (all_chars is_ascii "BeamSchema_") with true by (by vm_compute).
    cbn [andb]. rewrite BeamSchema_prefix.
    rewrite all_chars_app, all_chars_replace_identifier.
    replace (identifier_start "B") with true by (by vm_compute).
    replace (all_chars identifier_continue "eamSchema_") with true
      by (by vm_compute).
    done.
  - intros Hin. unfold kwlist in Hin. rewrite BeamSchema_prefix in Hin.
    repeat (apply elem_of_cons in Hin as [Heq|Hin]; [discriminate Heq|]).
    by apply elem_of_nil in Hin.
Qed.

Lemma synthesized_name_is_an_identifier_witness :
  isidentifier (fun _ => false)
    (synthesized_name (mkSchema [] "0f8fad5b-d9cb-469f-a165-70867728950e"))
  = true /\
  isidentifier (fun _ => false) (synthesized_name (mkSchema [] "a.b c")) <> true.
Proof.
  split.
  - by apply (proj1 (synthesized_name_is_an_identifier (fun _ => false)
                       (mkSchema [] "0f8fad5b-d9cb-469f-a165-70867728950e")
                       eq_refl)).
  - intros H.
    by apply (proj1 (synthesized_name_is_an_identifier (fun _ => false)
                       (mkSchema [] "a.b c") eq_refl)) in H.
Defined.
